(** * Discopic: the arbitrage opportunity detector and its analytics

    A shallow embedding of [js/arbitrage.js] (the [Arbitrage] object) and
    the properties of its specification.

    Conventions of the embedding.

    - Numbers.  A JavaScript Number is modelled by an exact rational [Q]:
      [+], [-], [*], [/] are the field operations and the comparisons are
      the rational order.  Rounding and the non-finite values (NaN, the
      infinities) are outside the model; under the data contract of a
      Quote (finite, positive prices) every divisor of the detector is
      non-zero.  Two numbers are compared with [==] (equal as rationals)
      unless they come out of the same computation, where [=] holds.
    - Objects used as maps.  The fee schedule is a [gmap string Q]; the
      object built by [groupByPair] is an association list in insertion
      order, which is the order [Object.entries] enumerates string keys
      in.  Exchange and pair identifiers are the tokens of the data
      contract ("BINANCE", "BTC/USDT"): they are neither array indices nor
      names of members of [Object.prototype].
    - The clock.  [new Date()] and [Date.now()] read the system clock.  The
      clock is a function from the number of readings made so far to the
      time read, in milliseconds since the epoch, and the functions that
      read it pass that number along.  [toISOString] has millisecond
      precision, so a time stamp is the millisecond value it renders and
      parsing it back is exact.
    - Arrays are lists; [push] appends at the end, [l !! i] is indexing. *)

From Stdlib Require Import QArith Qminmax Qabs Qfield Lqa.
From stdpp Require Import gmap strings list sorting.
From Stdlib Require Import Ascii.

Local Open Scope Q_scope.

(** ** Time *)

Definition Clock : Type := nat -> Z.

(** The string [new Date(ms).toISOString()]. *)
Inductive ISOString : Type := toISOString (ms : Z).

(** [new Date(s).getTime()] *)
Definition getTime (s : ISOString) : Z :=
  match s with toISOString ms => ms end.

(** ** Data *)

Module Quote.
Record t : Type := mk {
  exchange : string;
  pair : string;
  ask : Q;
  bid : Q;
  askVolume : Q;
  bidVolume : Q;
  timestamp : ISOString
}.
End Quote.

Module Opp.
Record t : Type := mk {
  pair : string;
  buyExchange : string;
  buyPrice : Q;
  sellExchange : string;
  sellPrice : Q;
  spread : Q;
  grossProfit : Q;
  netProfit : Q;
  buyFee : Q;
  sellFee : Q;
  totalFee : Q;
  volume : Q;
  timestamp : ISOString
}.

(** The content of an opportunity: everything but the moment it was
    detected at, which is blanked. *)
Definition content (o : t) : t :=
  {| pair := pair o; buyExchange := buyExchange o; buyPrice := buyPrice o;
     sellExchange := sellExchange o; sellPrice := sellPrice o;
     spread := spread o; grossProfit := grossProfit o;
     netProfit := netProfit o; buyFee := buyFee o; sellFee := sellFee o;
     totalFee := totalFee o; volume := volume o;
     timestamp := toISOString 0 |}.
End Opp.

(** ** JavaScript primitives *)

(** [v || d] for [v] a number or [undefined]: [undefined] and [0] are
    falsy and give [d]. *)
Definition or_default (v : option Q) (d : Q) : Q :=
  match v with
  | Some x => if Qeq_bool x 0 then d else x
  | None => d
  end.

(** [Math.min(a, b)] *)
Definition Math_min (a b : Q) : Q := Qmin a b.

(** [Math.max(x, ...xs)] *)
Definition Math_max (x : Q) (xs : list Q) : Q := foldl Qmax x xs.

(** [Array.prototype.sort(cmp)]: the sort is stable, and with a consistent
    comparator its result is the one of this insertion sort: [x] goes
    before [y] when [cmp x y <= 0] and [x] came first. *)
Fixpoint sort_insert {A : Type} (cmp : A -> A -> Q) (x : A) (l : list A) : list A :=
  match l with
  | [] => [x]
  | y :: l' =>
      if Qle_bool (cmp x y) 0 then x :: y :: l' else y :: sort_insert cmp x l'
  end.

Definition Array_sort {A : Type} (cmp : A -> A -> Q) (l : list A) : list A :=
  foldr (sort_insert cmp) [] l.

(** ** groupByPair *)

(** [grouped[pair].push(quote)], creating the array first when the key is
    new: new keys go to the end. *)
Fixpoint push_group (pair : string) (quote : Quote.t)
    (grouped : list (string * list Quote.t)) : list (string * list Quote.t) :=
  match grouped with
  | [] => [(pair, [quote])]
  | (k, qs) :: rest =>
      if String.eqb k pair then (k, qs ++ [quote]) :: rest
      else (k, qs) :: push_group pair quote rest
  end.

Definition groupByPair (quotes : list Quote.t) : list (string * list Quote.t) :=
  foldl (fun grouped quote => push_group (Quote.pair quote) quote grouped) [] quotes.

(** ** calculateOpportunities *)

(** The state of a run: the array [opportunities] and the number of clock
    readings made so far. *)
Record State : Type := mkState {
  opportunities : list Opp.t;
  reads : nat
}.

(** The body of the two loops for one ordered couple of quotes. *)
Definition visit (clock : Clock) (fees : gmap string Q) (minProfit : Q)
    (pair : string) (buyExchange sellExchange : Quote.t) (st : State) : State :=
  let buyPrice := Quote.ask buyExchange in
  let sellPrice := Quote.bid sellExchange in
  if Qle_bool sellPrice buyPrice then st
  else
    let buyFee := or_default (fees !! Quote.exchange buyExchange) 0.1 in
    let sellFee := or_default (fees !! Quote.exchange sellExchange) 0.1 in
    let totalFee := buyFee + sellFee in
    let grossProfit := ((sellPrice - buyPrice) / buyPrice) * 100 in
    let netProfit := grossProfit - totalFee in
    if Qle_bool minProfit netProfit then
      {| opportunities := opportunities st ++
           [ {| Opp.pair := pair;
                Opp.buyExchange := Quote.exchange buyExchange;
                Opp.buyPrice := buyPrice;
                Opp.sellExchange := Quote.exchange sellExchange;
                Opp.sellPrice := sellPrice;
                Opp.spread := sellPrice - buyPrice;
                Opp.grossProfit := grossProfit;
                Opp.netProfit := netProfit;
                Opp.buyFee := buyFee;
                Opp.sellFee := sellFee;
                Opp.totalFee := totalFee;
                Opp.volume := Math_min (Quote.askVolume buyExchange)
                                       (Quote.bidVolume sellExchange);
                Opp.timestamp := toISOString (clock (reads st)) |} ];
         reads := S (reads st) |}
    else st.

(** The loops over [i] and [j] for one trading pair. *)
Definition scanPair (clock : Clock) (fees : gmap string Q) (minProfit : Q)
    (pair : string) (pairQuotes : list Quote.t) (st : State) : State :=
  if (length pairQuotes <? 2)%nat then st
  else
    foldl (fun st i =>
      foldl (fun st j =>
        if (i =? j)%nat then st
        else
          match pairQuotes !! i, pairQuotes !! j with
          | Some buyExchange, Some sellExchange =>
              visit clock fees minProfit pair buyExchange sellExchange st
          | _, _ => st
          end) st (seq 0 (length pairQuotes))) st (seq 0 (length pairQuotes)).

(** The comparator of the final sort, [(a, b) => b.netProfit - a.netProfit]. *)
Definition byNetProfitDesc (a b : Opp.t) : Q := Opp.netProfit b - Opp.netProfit a.

(** [calculateOpportunities(quotes, fees, minProfit = 0.5)], started after
    [n] clock readings: the sorted array and the number of readings after
    the run. *)
Definition calculateOpportunities (clock : Clock) (quotes : list Quote.t)
    (fees : gmap string Q) (minProfit : option Q) (n : nat) : list Opp.t * nat :=
  let minProfit := default 0.5 minProfit in
  let quotesByPair := groupByPair quotes in
  let st :=
    foldl (fun st '(key, pairQuotes) =>
             scanPair clock fees minProfit key pairQuotes st)
          {| opportunities := []; reads := n |} quotesByPair in
  (Array_sort byNetProfitDesc (opportunities st), reads st).

(** ** Analytics *)

(** [filterByPair(opportunities, pair)]: [pair] is [None] when the
    argument is absent; the empty string is falsy too. *)
Definition filterByPair (opportunities : list Opp.t) (pair : option string) : list Opp.t :=
  match pair with
  | None => opportunities
  | Some p =>
      if String.eqb p "" || String.eqb p "all" then opportunities
      else List.filter (fun opp => String.eqb (Opp.pair opp) p) opportunities
  end.

Definition filterByMinProfit (opportunities : list Opp.t) (minProfit : Q) : list Opp.t :=
  List.filter (fun opp => Qle_bool minProfit (Opp.netProfit opp)) opportunities.

Record Stats : Type := mkStats {
  count : nat;
  avgProfit : Q;
  maxProfit : Q;
  totalVolume : Q
}.

(** [getStats(opportunities)].  Past the test of the length the array has
    a first element, so [Math.max(...profits)] has an argument. *)
Definition getStats (opportunities : list Opp.t) : Stats :=
  match opportunities with
  | [] => {| count := 0; avgProfit := 0; maxProfit := 0; totalVolume := 0 |}
  | opp :: rest =>
      let profits := map Opp.netProfit opportunities in
      let volumes := map Opp.volume opportunities in
      {| count := length opportunities;
         avgProfit := foldl Qplus 0 profits / inject_Z (Z.of_nat (length profits));
         maxProfit := Math_max (Opp.netProfit opp) (map Opp.netProfit rest);
         totalVolume := foldl Qplus 0 volumes |}
  end.

Record Breakdown : Type := mkBreakdown {
  investmentAmount : Q;
  buyAmount : Q;
  buyFeeAmount : Q;
  netBuyAmount : Q;
  sellValue : Q;
  sellFeeAmount : Q;
  netSellValue : Q;
  profit : Q;
  profitPercent : Q
}.

Definition calculateProfitAmount (opportunity : Opp.t) (investmentAmount : Q) : Breakdown :=
  let buyAmount := investmentAmount / Opp.buyPrice opportunity in
  let buyFeeAmount := (buyAmount * Opp.buyFee opportunity) / 100 in
  let netBuyAmount := buyAmount - buyFeeAmount in
  let sellValue := netBuyAmount * Opp.sellPrice opportunity in
  let sellFeeAmount := (sellValue * Opp.sellFee opportunity) / 100 in
  let netSellValue := sellValue - sellFeeAmount in
  let profit := netSellValue - investmentAmount in
  let profitPercent := (profit / investmentAmount) * 100 in
  {| investmentAmount := investmentAmount;
     buyAmount := buyAmount;
     buyFeeAmount := buyFeeAmount;
     netBuyAmount := netBuyAmount;
     sellValue := sellValue;
     sellFeeAmount := sellFeeAmount;
     netSellValue := netSellValue;
     profit := profit;
     profitPercent := profitPercent |}.

(** [a < b] on numbers. *)
Definition Qlt_bool (a b : Q) : bool := negb (Qle_bool b a).

(** [isValid(opportunity, maxAge = 60000)], called after [n] clock
    readings: the answer and the number of readings after the call. *)
Definition isValid (clock : Clock) (opportunity : Opp.t) (maxAge : option Q)
    (n : nat) : bool * nat :=
  let maxAge := default 60000 maxAge in
  let age := (clock n - getTime (Opp.timestamp opportunity))%Z in
  (Qlt_bool (inject_Z age) maxAge && Qlt_bool 0 (Opp.netProfit opportunity), S n).

(** ** Auxiliary notions of the properties *)

(** The order a comparator stands for: [a] may come before [b]. *)
Definition before {A : Type} (cmp : A -> A -> Q) (a b : A) : Prop := cmp a b <= 0.

(** What [visit] pushes for an ordered couple of quotes, the time stamp
    blanked: nothing, or the content of one opportunity. *)
Definition candidate (fees : gmap string Q) (pair : string) (b s : Quote.t) : Opp.t :=
  let buyFee := or_default (fees !! Quote.exchange b) 0.1 in
  let sellFee := or_default (fees !! Quote.exchange s) 0.1 in
  let grossProfit := ((Quote.bid s - Quote.ask b) / Quote.ask b) * 100 in
  {| Opp.pair := pair;
     Opp.buyExchange := Quote.exchange b;
     Opp.buyPrice := Quote.ask b;
     Opp.sellExchange := Quote.exchange s;
     Opp.sellPrice := Quote.bid s;
     Opp.spread := Quote.bid s - Quote.ask b;
     Opp.grossProfit := grossProfit;
     Opp.netProfit := grossProfit - (buyFee + sellFee);
     Opp.buyFee := buyFee;
     Opp.sellFee := sellFee;
     Opp.totalFee := buyFee + sellFee;
     Opp.volume := Math_min (Quote.askVolume b) (Quote.bidVolume s);
     Opp.timestamp := toISOString 0 |}.

Definition offers (fees : gmap string Q) (minProfit : Q) (pair : string)
    (b s : Quote.t) : list Opp.t :=
  if Qle_bool (Quote.bid s) (Quote.ask b) then []
  else if Qle_bool minProfit (Opp.netProfit (candidate fees pair b s))
       then [candidate fees pair b s] else [].

(** The contents pushed for one trading pair, and for a whole run, in the
    order of the pushes. *)
Definition pairOffers (fees : gmap string Q) (minProfit : Q) (pair : string)
    (pairQuotes : list Quote.t) : list Opp.t :=
  if (length pairQuotes <? 2)%nat then []
  else
    i ← seq 0 (length pairQuotes);
    j ← seq 0 (length pairQuotes);
    if (i =? j)%nat then []
    else
      match pairQuotes !! i, pairQuotes !! j with
      | Some b, Some s => offers fees minProfit pair b s
      | _, _ => []
      end.

Definition allOffers (fees : gmap string Q) (minProfit : Q)
    (quotes : list Quote.t) : list Opp.t :=
  entry ← groupByPair quotes;
  pairOffers fees minProfit entry.1 entry.2.

(** The key two quotes must not share for the exchanges of an
    opportunity to differ. *)
Definition pairExchange (q : Quote.t) : string * string :=
  (Quote.pair q, Quote.exchange q).

(** [keeps P l r]: [r] is [l] with exactly the elements that satisfy [P]
    kept, each as it is and in the order of [l]. *)
Inductive keeps {A : Type} (P : A -> Prop) : list A -> list A -> Prop :=
  | keeps_nil : keeps P [] []
  | keeps_take x l r : P x -> keeps P l r -> keeps P (x :: l) (x :: r)
  | keeps_skip x l r : ~ P x -> keeps P l r -> keeps P (x :: l) r.

(** The condition [filterByPair] keeps an opportunity under: no pair, the
    empty one or "all" is asked for, or the pair asked for is its own. *)
Definition pairSelected (pair : option string) (opp : Opp.t) : Prop :=
  match pair with
  | None => True
  | Some p => p = "" ∨ p = "all" ∨ Opp.pair opp = p
  end.

(** The projection of a profit as the specification words it, as a
    relation between an opportunity, an investment and a breakdown. *)
Definition projectProfit_spec (opp : Opp.t) (investment : Q) (r : Breakdown) : Prop :=
  buyAmount r = investment / Opp.buyPrice opp ∧
  buyFeeAmount r = buyAmount r * Opp.buyFee opp / 100 ∧
  netBuyAmount r = buyAmount r - buyFeeAmount r ∧
  sellValue r = netBuyAmount r * Opp.sellPrice opp ∧
  sellFeeAmount r = sellValue r * Opp.sellFee opp / 100 ∧
  netSellValue r = sellValue r - sellFeeAmount r ∧
  profit r = netSellValue r - investment ∧
  profitPercent r = profit r / investment * 100.

(** ** Sample inputs *)

(** A clock that starts at 1700000000000 ms and advances by one
    millisecond per reading. *)
Definition sampleClock : Clock := fun n => (1700000000000 + Z.of_nat n)%Z.

(** The two quotes of scenario A of the specification. *)
Definition binanceQuote : Quote.t :=
  {| Quote.exchange := "BINANCE"; Quote.pair := "BTC/USDT";
     Quote.ask := 42000; Quote.bid := 41990;
     Quote.askVolume := 1.5; Quote.bidVolume := 2;
     Quote.timestamp := toISOString 1699999999000 |}.

Definition coinbaseQuote : Quote.t :=
  {| Quote.exchange := "COINBASE"; Quote.pair := "BTC/USDT";
     Quote.ask := 42500; Quote.bid := 42480;
     Quote.askVolume := 3; Quote.bidVolume := 0.5;
     Quote.timestamp := toISOString 1699999999500 |}.

Definition scenarioFees : gmap string Q :=
  <["BINANCE" := 0.1]> (<["COINBASE" := 0.6]> ∅).

(** Two quotes of one exchange for one pair, an older and a newer one. *)
Definition staleQuote : Quote.t :=
  {| Quote.exchange := "BINANCE"; Quote.pair := "BTC/USDT";
     Quote.ask := 100; Quote.bid := 99;
     Quote.askVolume := 1; Quote.bidVolume := 1;
     Quote.timestamp := toISOString 1699999990000 |}.

Definition freshQuote : Quote.t :=
  {| Quote.exchange := "BINANCE"; Quote.pair := "BTC/USDT";
     Quote.ask := 120; Quote.bid := 110;
     Quote.askVolume := 1; Quote.bidVolume := 1;
     Quote.timestamp := toISOString 1699999999000 |}.

(** A third quote for the pair of scenario A, and a fee schedule that
    lists BINANCE with a fee of zero. *)
Definition krakenQuote : Quote.t :=
  {| Quote.exchange := "KRAKEN"; Quote.pair := "BTC/USDT";
     Quote.ask := 43100; Quote.bid := 43000;
     Quote.askVolume := 2; Quote.bidVolume := 1;
     Quote.timestamp := toISOString 1699999999700 |}.

Definition zeroFees : gmap string Q :=
  <["BINANCE" := 0]> (<["COINBASE" := 0.6]> ∅).

(** A quote for another pair. *)
Definition etherQuote : Quote.t :=
  {| Quote.exchange := "KRAKEN"; Quote.pair := "ETH/USDT";
     Quote.ask := 2200; Quote.bid := 2199;
     Quote.askVolume := 10; Quote.bidVolume := 12;
     Quote.timestamp := toISOString 1699999999800 |}.

(** The opportunity of scenario A, as a run started after no clock
    reading returns it. *)
Definition scenarioOpp : Opp.t :=
  {| Opp.pair := "BTC/USDT";
     Opp.buyExchange := "BINANCE"; Opp.buyPrice := 42000;
     Opp.sellExchange := "COINBASE"; Opp.sellPrice := 42480;
     Opp.spread := 42480 - 42000;
     Opp.grossProfit := ((42480 - 42000) / 42000) * 100;
     Opp.netProfit := ((42480 - 42000) / 42000) * 100 - (0.1 + 0.6);
     Opp.buyFee := 0.1; Opp.sellFee := 0.6; Opp.totalFee := 0.1 + 0.6;
     Opp.volume := Math_min 1.5 0.5;
     Opp.timestamp := toISOString 1700000000000 |}.

(** The best opportunity of the three quotes: buy on BINANCE, sell on
    KRAKEN, which the fee schedule does not list; it is the second one
    pushed. *)
Definition krakenOpp : Opp.t :=
  {| Opp.pair := "BTC/USDT";
     Opp.buyExchange := "BINANCE"; Opp.buyPrice := 42000;
     Opp.sellExchange := "KRAKEN"; Opp.sellPrice := 43000;
     Opp.spread := 43000 - 42000;
     Opp.grossProfit := ((43000 - 42000) / 42000) * 100;
     Opp.netProfit := ((43000 - 42000) / 42000) * 100 - (0.1 + 0.1);
     Opp.buyFee := 0.1; Opp.sellFee := 0.1; Opp.totalFee := 0.1 + 0.1;
     Opp.volume := Math_min 1.5 1;
     Opp.timestamp := toISOString 1700000000001 |}.

(** ** The other functions of the Arbitrage object *)

(** The comparator of the sort by spread, [(a, b) => b.spread - a.spread]. *)
Definition bySpreadDesc (a b : Opp.t) : Q := Opp.spread b - Opp.spread a.

(** [Arbitrage.sort(opportunities, sortBy)].  The copy [[...opportunities]]
    is sorted, the argument is left as it is.  [localeCompare] is the
    string comparison of the platform, [a.localeCompare(b)]. *)
Definition sort (localeCompare : string -> string -> Q)
    (opportunities : list Opp.t) (sortBy : string) : list Opp.t :=
  let sorted := opportunities in
  if String.eqb sortBy "profit" then Array_sort byNetProfitDesc sorted
  else if String.eqb sortBy "pair" then
    Array_sort (fun a b => localeCompare (Opp.pair a) (Opp.pair b)) sorted
  else if String.eqb sortBy "spread" then Array_sort bySpreadDesc sorted
  else sorted.

(** [getProfitClass(profit)] *)
Definition getProfitClass (profit : Q) : string :=
  if Qle_bool 1 profit then "profit-positive"
  else if Qle_bool 0 profit then "profit-neutral"
  else "profit-negative".

(** The trading pairs of a list of quotes, each once, in the order they
    first occur in. *)
Definition firstPairs (quotes : list Quote.t) : list string :=
  reverse (remove_dups (reverse (Quote.pair <$> quotes))).

(** The quotes of a list that are for a given pair. *)
Definition quotesOfPair (pair : string) (quotes : list Quote.t) : list Quote.t :=
  List.filter (fun q => String.eqb (Quote.pair q) pair) quotes.

(** ** Notions and samples of the further properties *)

(** What a run started after [n] readings keeps true of its state: the
    time stamps pushed are the readings [n], [n + 1], ... in this order,
    and each reading made has been pushed. *)
Definition stamped (clock : Clock) (n : nat) (st : State) : Prop :=
  Opp.timestamp <$> opportunities st
  = (λ k, toISOString (clock k)) <$> seq n (length (opportunities st)) ∧
  reads st = (n + length (opportunities st))%nat.


(** ** The table of the application (js/app.js) *)

(** [applyFilters()] of the application, as a function of what it reads:
    the opportunities last computed, the value of the pair filter, the
    minimum profit field as [parseFloat] reads it ([None] when it reads no
    number) and the sort key.  The result is what it stores as the rows of
    the table. *)
Definition applyFilters (localeCompare : string -> string -> Q)
    (opportunities : list Opp.t) (pairFilter : string) (minProfitField : option Q)
    (sortBy : string) : list Opp.t :=
  let minProfit := or_default minProfitField 0 in
  let filtered := filterByPair opportunities (Some pairFilter) in
  let filtered := filterByMinProfit filtered minProfit in
  sort localeCompare filtered sortBy.

(** The pair and the two exchanges of an opportunity, which the "View"
    button of its row passes to [viewDetails]. *)
Definition legs (o : Opp.t) : string * string * string :=
  (Opp.pair o, Opp.buyExchange o, Opp.sellExchange o).

(** [viewDetails(pair, buyExchange, sellExchange)] over the rows of the
    table: the row [find] gives and the breakdown computed for it, which
    the alert shows, or nothing when [find] gives no row. *)
Definition viewDetails (rows : list Opp.t) (pair buyExchange sellExchange : string)
    : option (Opp.t * Breakdown) :=
  match List.find (fun o => String.eqb (Opp.pair o) pair
                            && String.eqb (Opp.buyExchange o) buyExchange
                            && String.eqb (Opp.sellExchange o) sellExchange) rows with
  | Some opp => Some (opp, calculateProfitAmount opp 1000)
  | None => None
  end.

(** ** The quotes the application fetches (js/api.js) *)

(** [formatPair(pair)], that is [pair.replace('/', '_')]: a string
    pattern stands for its first occurrence only. *)
Fixpoint formatPair (pair : string) : string :=
  match pair with
  | EmptyString => EmptyString
  | String c rest =>
      if Ascii.eqb c "/"%char then String "_"%char rest
      else String c (formatPair rest)
  end.

(** A string without slash. *)
Fixpoint slashFree (s : string) : bool :=
  match s with
  | EmptyString => true
  | String c rest => negb (Ascii.eqb c "/"%char) && slashFree rest
  end.

(** One level of an order book as the provider answers it, and the
    answer to a request for the order book of a symbol. *)
Module Level.
Record t : Type := mk { price : Q; size : Q }.
End Level.

Module Book.
Record t : Type := mk {
  asks : option (list Level.t);
  bids : option (list Level.t)
}.
End Book.

(** What [getOrderbook] returns; [None] in a price is [null]. *)
Module Orderbook.
Record t : Type := mk {
  ask : option Q;
  bid : option Q;
  askVolume : Q;
  bidVolume : Q
}.
End Orderbook.

(** [v || null] for [v] a number or [undefined]. *)
Definition or_null (v : option Q) : option Q :=
  match v with
  | Some x => if Qeq_bool x 0 then None else Some x
  | None => None
  end.

(** [getOrderbook] from the answer of the request on: [data] is [None]
    when the request failed, which the function catches, or answered
    [null]. *)
Definition orderbookOf (data : option Book.t) : option Orderbook.t :=
  match data with
  | Some d =>
      match Book.asks d, Book.bids d with
      | Some asks, Some bids =>
          Some {| Orderbook.ask := or_null (Level.price <$> head asks);
                  Orderbook.bid := or_null (Level.price <$> head bids);
                  Orderbook.askVolume := or_default (Level.size <$> head asks) 0;
                  Orderbook.bidVolume := or_default (Level.size <$> head bids) 0 |}
      | _, _ => None
      end
  | None => None
  end.

(** What comes back for one request of [getQuotesForPair]: the answer of
    the provider and the time the clock shows when the quote is built. *)
Record Reply : Type := mkReply {
  answer : option Book.t;
  builtAt : Z
}.

(** The body of the function [getQuotesForPair] maps over the exchanges:
    the quote, or [null]. *)
Definition quoteOf (exchangeId pair : string) (reply : Reply) : option Quote.t :=
  match orderbookOf (answer reply) with
  | Some orderbook =>
      match Orderbook.ask orderbook, Orderbook.bid orderbook with
      | Some ask, Some bid =>
          if negb (Qeq_bool ask 0) && negb (Qeq_bool bid 0) then
            Some {| Quote.exchange := exchangeId;
                    Quote.pair := pair;
                    Quote.ask := ask;
                    Quote.bid := bid;
                    Quote.askVolume := Orderbook.askVolume orderbook;
                    Quote.bidVolume := Orderbook.bidVolume orderbook;
                    Quote.timestamp := toISOString (builtAt reply) |}
          else None
      | _, _ => None
      end
  | None => None
  end.

(** [getQuotesForPair(pair, exchanges, apiKey)], given what comes back
    for the request of each position of [exchanges]: the results that are
    not [null], in the order of the exchanges. *)
Definition getQuotesForPair (replies : nat -> Reply) (pair : string)
    (exchanges : list string) : list Quote.t :=
  omap id (imap (fun j exchangeId => quoteOf exchangeId pair (replies j)) exchanges).

(** [getAllQuotes(pairs, exchanges, apiKey)], given what comes back for
    the request of each position of [pairs] and of [exchanges]. *)
Definition getAllQuotes (replies : nat -> nat -> Reply) (pairs exchanges : list string)
    : list Quote.t :=
  mjoin (imap (fun i pair => getQuotesForPair (replies i) pair exchanges) pairs).

(** The answers of a provider that has the book of BINANCE only. *)
Definition sampleReplies : nat -> nat -> Reply :=
  fun _ j =>
    match j with
    | 0%nat => {| answer := Some {| Book.asks := Some [ {| Level.price := 42000; Level.size := 1.5 |} ];
                                    Book.bids := Some [ {| Level.price := 41990; Level.size := 2 |} ] |};
                  builtAt := 1699999999000 |}
    | _ => {| answer := None; builtAt := 1699999999100 |}
    end.

(** ** The settings (js/config.js)

    The item the browser stores under the key of the application is
    modelled by what [JSON.parse] makes of it.  The values of the settings
    are strings, numbers, booleans, the fee table and lists of names, which
    [JSON.stringify] and [JSON.parse] take there and back unchanged. *)
Module Config.
Inductive value : Type :=
  | Str (s : string)
  | Num (x : Q)
  | Bool (b : bool)
  | Fees (fees : gmap string Q)
  | Names (l : list string).

(** The stored item: none, one that [load] cannot use (an empty string, or
    one [JSON.parse] throws on), or the object a [save] wrote. *)
Inductive storage : Type :=
  | Absent
  | Unreadable
  | Stored (config : gmap string value).

Definition defaults : gmap string value :=
  <["apiKey" := Str ""]> (
  <["refreshInterval" := Num 30]> (
  <["defaultMinProfit" := Num 0.5]> (
  <["autoRefresh" := Bool false]> (
  <["fees" := Fees (<["BINANCE" := 0.1]> (<["COINBASE" := 0.6]> (
                    <["KRAKEN" := 0.26]> (<["BITFINEX" := 0.2]> (
                    <["BITSTAMP" := 0.25]> ∅)))))]> (
  <["pairs" := Names ["BTC/USDT"; "ETH/USDT"; "BNB/USDT"]]> (
  <["exchanges" := Names ["BINANCE"; "COINBASE"; "KRAKEN"; "BITFINEX"]]> ∅)))))).

(** [load()]: [{ ...this.defaults, ...config }], the keys of the stored
    object first. *)
Definition load (st : storage) : gmap string value :=
  match st with
  | Stored config => config ∪ defaults
  | Absent | Unreadable => defaults
  end.


Definition get (key : string) (st : storage) : option value := load st !! key.


(** [reset()], for a browser that accepts the removal. *)
Definition reset (st : storage) : bool * storage := (true, Absent).

(** [getFee(exchangeId)]; [None] stands for the TypeError of reading a
    property of a value of "fees" that is no object. *)
Definition getFee (exchangeId : string) (st : storage) : option Q :=
  match get "fees" st with
  | Some (Fees fees) => Some (or_default (fees !! exchangeId) 0.1)
  | _ => None
  end.
End Config.

(** The settings the dialog of the application saves: its fee table lists
    four exchanges. *)
Definition savedFees : gmap string Q :=
  <["BINANCE" := 0.1]> (<["COINBASE" := 0.6]> (
  <["KRAKEN" := 0.26]> (<["BITFINEX" := 0.2]> ∅))).

Definition savedSettings : gmap string Config.value :=
  <["fees" := Config.Fees savedFees]> Config.defaults.

(** * Properties *)

(** ** The sort *)

Section ArraySort.
Context {A : Type} (cmp : A -> A -> Q).

Lemma sort_insert_Permutation (x : A) (l : list A) :
  sort_insert cmp x l ≡ₚ x :: l.
Proof.
  induction l as [|y l IH]; simpl; [done|].
  destruct (Qle_bool (cmp x y) 0); [done|].
  rewrite IH. apply Permutation_swap.
Qed.

Lemma Array_sort_Permutation (l : list A) : Array_sort cmp l ≡ₚ l.
Proof.
  induction l as [|x l IH]; simpl; [done|].
  rewrite sort_insert_Permutation. by rewrite IH.
Qed.

Lemma Array_sort_length (l : list A) : length (Array_sort cmp l) = length l.
Proof. apply Permutation_length, Array_sort_Permutation. Qed.

Lemma elem_of_Array_sort (x : A) (l : list A) : x ∈ Array_sort cmp l ↔ x ∈ l.
Proof. by rewrite Array_sort_Permutation. Qed.

(** A comparator that only looks at the images under [f] sorts the
    images the way it sorts the elements. *)
Lemma sort_insert_fmap {B : Type} (f : A -> B) (cmp' : B -> B -> Q) (x : A) (l : list A) :
  (∀ a b, cmp' (f a) (f b) = cmp a b) →
  f <$> sort_insert cmp x l = sort_insert cmp' (f x) (f <$> l).
Proof.
  intros Hf. induction l as [|y l IH]; csimpl; [done|].
  rewrite Hf. destruct (Qle_bool (cmp x y) 0); csimpl; [done|].
  by rewrite IH.
Qed.

Lemma Array_sort_fmap {B : Type} (f : A -> B) (cmp' : B -> B -> Q) (l : list A) :
  (∀ a b, cmp' (f a) (f b) = cmp a b) →
  f <$> Array_sort cmp l = Array_sort cmp' (f <$> l).
Proof.
  intros Hf. unfold Array_sort. induction l as [|x l IH]; csimpl; [done|].
  rewrite <- IH. by apply sort_insert_fmap.
Qed.

Hypothesis cmp_total : ∀ a b, before cmp a b ∨ before cmp b a.
Hypothesis cmp_trans : ∀ a b c, before cmp a b → before cmp b c → before cmp a c.

Lemma sort_insert_sorted (x : A) (l : list A) :
  StronglySorted (before cmp) l → StronglySorted (before cmp) (sort_insert cmp x l).
Proof.
  induction 1 as [|y l Hl IH Hy]; simpl.
  - repeat constructor.
  - destruct (Qle_bool (cmp x y) 0) eqn:E.
    + apply Qle_bool_iff in E.
      constructor; [by constructor|].
      constructor; [done|].
      eapply Forall_impl; [exact Hy|]. intros z Hz. by eapply cmp_trans.
    + constructor; [done|].
      rewrite sort_insert_Permutation. constructor; [|done].
      destruct (cmp_total x y) as [Hxy|Hyx]; [|done].
      apply Qle_bool_iff in Hxy. unfold before in *. congruence.
Qed.

Lemma Array_sort_sorted (l : list A) : StronglySorted (before cmp) (Array_sort cmp l).
Proof.
  induction l as [|x l IH]; simpl; [constructor|].
  by apply sort_insert_sorted.
Qed.
End ArraySort.

Lemma StronglySorted_lookup {A : Type} (R : relation A) (l : list A) (i j : nat) (x y : A) :
  StronglySorted R l → (i < j)%nat → l !! i = Some x → l !! j = Some y → R x y.
Proof.
  intros Hl. revert i j. induction Hl as [|z l Hl IH Hz]; intros i j Hij Hi Hj.
  - by rewrite lookup_nil in Hi.
  - destruct j as [|j]; [lia|]. simpl in Hj. destruct i as [|i]; simpl in Hi.
    + injection Hi as <-. rewrite Forall_forall in Hz.
      apply Hz. by eapply list_elem_of_lookup_2.
    + eapply (IH i j); [lia|done..].
Qed.

Lemma byNetProfitDesc_total (a b : Opp.t) :
  before byNetProfitDesc a b ∨ before byNetProfitDesc b a.
Proof.
  unfold before, byNetProfitDesc.
  destruct (Qlt_le_dec (Opp.netProfit a) (Opp.netProfit b)) as [H|H].
  - right. apply Qlt_le_weak in H. lra.
  - left. lra.
Qed.

Lemma byNetProfitDesc_trans (a b c : Opp.t) :
  before byNetProfitDesc a b → before byNetProfitDesc b c →
  before byNetProfitDesc a c.
Proof. unfold before, byNetProfitDesc. lra. Qed.

Lemma before_byNetProfitDesc (a b : Opp.t) :
  before byNetProfitDesc a b ↔ Opp.netProfit b <= Opp.netProfit a.
Proof. unfold before, byNetProfitDesc. split; lra. Qed.

(** ** What a run pushes *)

Lemma visit_content clock fees minProfit pair b s st :
  Opp.content <$> opportunities (visit clock fees minProfit pair b s st)
  = (Opp.content <$> opportunities st) ++ offers fees minProfit pair b s.
Proof.
  unfold visit, offers.
  destruct (Qle_bool (Quote.bid s) (Quote.ask b)); [by rewrite app_nil_r|].
  cbn [candidate Opp.netProfit].
  destruct (Qle_bool minProfit _); [|by rewrite app_nil_r].
  cbn [opportunities]. by rewrite fmap_app.
Qed.

Lemma foldl_content {X : Type} (f : State -> X -> State) (g : X -> list Opp.t)
    (l : list X) (st : State) :
  (∀ st x, Opp.content <$> opportunities (f st x)
           = (Opp.content <$> opportunities st) ++ g x) →
  Opp.content <$> opportunities (foldl f st l)
  = (Opp.content <$> opportunities st) ++ (l ≫= g).
Proof.
  intros Hf. revert st. induction l as [|x l IH]; intros st; csimpl.
  - by rewrite app_nil_r.
  - by rewrite IH, Hf, <- app_assoc.
Qed.

Lemma scanPair_content clock fees minProfit pair pairQuotes st :
  Opp.content <$> opportunities (scanPair clock fees minProfit pair pairQuotes st)
  = (Opp.content <$> opportunities st) ++ pairOffers fees minProfit pair pairQuotes.
Proof.
  unfold scanPair, pairOffers.
  destruct (length pairQuotes <? 2)%nat; [by rewrite app_nil_r|].
  apply foldl_content. intros st1 i.
  apply foldl_content. intros st2 j.
  destruct (i =? j)%nat; [by rewrite app_nil_r|].
  destruct (pairQuotes !! i) as [b|]; [|by rewrite app_nil_r].
  destruct (pairQuotes !! j) as [s|]; [|by rewrite app_nil_r].
  apply visit_content.
Qed.

Lemma byNetProfitDesc_content (a b : Opp.t) :
  byNetProfitDesc (Opp.content a) (Opp.content b) = byNetProfitDesc a b.
Proof. done. Qed.

(** The contents of the array a run returns are the sorted contents of
    what the loops push. *)
Lemma calculateOpportunities_content clock quotes fees minProfit n :
  Opp.content <$> (calculateOpportunities clock quotes fees minProfit n).1
  = Array_sort byNetProfitDesc (allOffers fees (default 0.5 minProfit) quotes).
Proof.
  unfold calculateOpportunities, allOffers. cbn [fst].
  rewrite (Array_sort_fmap _ Opp.content byNetProfitDesc _ byNetProfitDesc_content).
  f_equal.
  rewrite (foldl_content _ (λ entry, pairOffers fees (default 0.5 minProfit) entry.1 entry.2)).
  - done.
  - intros st [key pairQuotes]. apply scanPair_content.
Qed.

Lemma elem_of_offers fees minProfit pair b s c :
  c ∈ offers fees minProfit pair b s ↔
  Quote.ask b < Quote.bid s ∧
  minProfit <= Opp.netProfit (candidate fees pair b s) ∧
  c = candidate fees pair b s.
Proof.
  unfold offers.
  destruct (Qle_bool (Quote.bid s) (Quote.ask b)) eqn:E1.
  - apply Qle_bool_iff in E1. rewrite elem_of_nil.
    split; [done|]. intros (H & _). apply Qlt_not_le in H. done.
  - assert (Quote.ask b < Quote.bid s) as Hlt.
    { apply Qnot_le_lt. intros H. apply Qle_bool_iff in H. congruence. }
    destruct (Qle_bool minProfit _) eqn:E2.
    + apply Qle_bool_iff in E2. rewrite list_elem_of_singleton. tauto.
    + rewrite elem_of_nil. split; [done|]. intros (_ & H & _).
      apply Qle_bool_iff in H. congruence.
Qed.

Lemma elem_of_pairOffers fees minProfit pair pairQuotes c :
  c ∈ pairOffers fees minProfit pair pairQuotes ↔
  ∃ i j b s, i ≠ j ∧ pairQuotes !! i = Some b ∧ pairQuotes !! j = Some s ∧
             c ∈ offers fees minProfit pair b s.
Proof.
  unfold pairOffers. split.
  - destruct (length pairQuotes <? 2)%nat; [by rewrite elem_of_nil|].
    intros (i & (j & Hc & _)%list_elem_of_bind & _)%list_elem_of_bind.
    destruct (Nat.eqb_spec i j) as [->|Hij]; [by apply elem_of_nil in Hc|].
    destruct (pairQuotes !! i) as [b|] eqn:Hi; [|by apply elem_of_nil in Hc].
    destruct (pairQuotes !! j) as [s|] eqn:Hj; [|by apply elem_of_nil in Hc].
    by exists i, j, b, s.
  - intros (i & j & b & s & Hij & Hi & Hj & Hc).
    pose proof (lookup_lt_Some _ _ _ Hi) as Hli.
    pose proof (lookup_lt_Some _ _ _ Hj) as Hlj.
    destruct (Nat.ltb_spec (length pairQuotes) 2); [lia|].
    apply list_elem_of_bind. exists i. split; [|apply elem_of_seq; lia].
    apply list_elem_of_bind. exists j. split; [|apply elem_of_seq; lia].
    destruct (Nat.eqb_spec i j); [done|]. by rewrite Hi, Hj.
Qed.

Lemma elem_of_allOffers fees minProfit quotes c :
  c ∈ allOffers fees minProfit quotes ↔
  ∃ pair pairQuotes, (pair, pairQuotes) ∈ groupByPair quotes ∧
                     c ∈ pairOffers fees minProfit pair pairQuotes.
Proof.
  unfold allOffers. rewrite list_elem_of_bind. split.
  - intros ([pair pairQuotes] & Hc & Hin). by exists pair, pairQuotes.
  - intros (pair & pairQuotes & Hin & Hc). by exists (pair, pairQuotes).
Qed.

(** Every opportunity returned comes from two quotes at different
    positions of one group, and passed both tests. *)
Lemma elem_of_calculateOpportunities clock quotes fees minProfit n o :
  o ∈ (calculateOpportunities clock quotes fees minProfit n).1 →
  ∃ pair pairQuotes i j b s,
    (pair, pairQuotes) ∈ groupByPair quotes ∧
    i ≠ j ∧ pairQuotes !! i = Some b ∧ pairQuotes !! j = Some s ∧
    Quote.ask b < Quote.bid s ∧
    default 0.5 minProfit <= Opp.netProfit (candidate fees pair b s) ∧
    Opp.content o = candidate fees pair b s.
Proof.
  intros Ho.
  apply (list_elem_of_fmap_2 Opp.content) in Ho.
  rewrite calculateOpportunities_content, elem_of_Array_sort in Ho.
  apply elem_of_allOffers in Ho as (pair & pairQuotes & Hg & Ho).
  apply elem_of_pairOffers in Ho as (i & j & b & s & Hij & Hi & Hj & Ho).
  apply elem_of_offers in Ho as (Hlt & Hmin & Ho).
  by exists pair, pairQuotes, i, j, b, s.
Qed.

(** ** The groups *)

Lemma elem_of_push_group pair quote grouped k qs :
  (k, qs) ∈ push_group pair quote grouped →
  (k, qs) ∈ grouped ∨
  k = pair ∧ (qs = [quote] ∨ ∃ qs0, (k, qs0) ∈ grouped ∧ qs = qs0 ++ [quote]).
Proof.
  induction grouped as [|[k' qs'] rest IH]; simpl.
  - intros [= -> ->]%list_elem_of_singleton. right. auto.
  - destruct (String.eqb_spec k' pair) as [->|Hne].
    + intros [[= -> ->]|Hin]%elem_of_cons.
      * right. split; [done|]. right. exists qs'. split; [|done]. left.
      * left. by right.
    + intros [[= -> ->]|Hin]%elem_of_cons.
      * left. left.
      * destruct (IH Hin) as [H|(-> & [->|(qs0 & H & ->)])].
        -- left. by right.
        -- right. auto.
        -- right. split; [done|]. right. exists qs0. split; [by right|done].
Qed.

(** A group holds quotes of its pair only, in the order of the input. *)
Lemma groupByPair_group quotes pair pairQuotes :
  (pair, pairQuotes) ∈ groupByPair quotes →
  pairQuotes `sublist_of` quotes ∧ Forall (λ q, Quote.pair q = pair) pairQuotes.
Proof.
  unfold groupByPair. revert pair pairQuotes.
  induction quotes as [|q quotes IH] using rev_ind; intros pair pairQuotes.
  - simpl. by intros ?%elem_of_nil.
  - rewrite foldl_snoc.
    intros [Hin|(-> & [->|(qs0 & Hin & ->)])]%elem_of_push_group.
    + destruct (IH _ _ Hin) as [Hs Hf]. split; [|done].
      by apply sublist_inserts_r.
    + split; [|by repeat constructor].
      apply sublist_inserts_l. done.
    + destruct (IH _ _ Hin) as [Hs Hf]. split.
      * by apply sublist_app.
      * apply Forall_app. split; [done|]. by repeat constructor.
Qed.

Example groupByPair_sample :
  groupByPair [binanceQuote; etherQuote; coinbaseQuote]
  = [("BTC/USDT", [binanceQuote; coinbaseQuote]); ("ETH/USDT", [etherQuote])].
Proof. reflexivity. Qed.

(** ** The detector *)

(** C1, as the code has it: when no two quotes of the input have both the
    same pair and the same exchange identifier, every opportunity
    returned by calculateOpportunities buys and sells on different
    exchanges. *)
Theorem calculateOpportunities_distinct_exchanges clock quotes fees minProfit n o :
  NoDup (pairExchange <$> quotes) →
  o ∈ (calculateOpportunities clock quotes fees minProfit n).1 →
  Opp.buyExchange o ≠ Opp.sellExchange o.
Proof.
  intros Hnd Ho Heq.
  apply elem_of_calculateOpportunities in Ho
    as (pair & pairQuotes & i & j & b & s & Hg & Hij & Hi & Hj & _ & _ & Hc).
  apply groupByPair_group in Hg as [Hsub Hpair].
  rewrite Forall_forall in Hpair.
  assert (Quote.pair b = pair) as Hb by (eapply Hpair, list_elem_of_lookup_2; done).
  assert (Quote.pair s = pair) as Hs by (eapply Hpair, list_elem_of_lookup_2; done).
  assert (Quote.exchange b = Quote.exchange s) as Hex.
  { change (Opp.buyExchange (candidate fees pair b s)
            = Opp.sellExchange (candidate fees pair b s)).
    rewrite <- Hc. exact Heq. }
  apply Hij.
  apply (NoDup_lookup (pairExchange <$> pairQuotes) i j (pairExchange b)).
  - eapply sublist_NoDup; [exact Hnd|]. by apply fmap_sublist.
  - by rewrite list_lookup_fmap, Hi.
  - rewrite list_lookup_fmap, Hj. unfold pairExchange. simpl. congruence.
Qed.

(** C1, as stated, fails: with two quotes of BINANCE for BTC/USDT in the
    input, the opportunity returned buys and sells on BINANCE. *)
Lemma calculateOpportunities_same_exchange :
  ¬ (∀ o, o ∈ (calculateOpportunities sampleClock [staleQuote; freshQuote] ∅ (Some 0) 0).1 →
          Opp.buyExchange o ≠ Opp.sellExchange o).
Proof.
  intros H.
  eapply H; [eapply (list_elem_of_lookup_2 _ 0%nat); vm_compute; reflexivity|].
  reflexivity.
Qed.

Lemma scenarioOpp_returned :
  (calculateOpportunities sampleClock [binanceQuote; coinbaseQuote]
     scenarioFees (Some 0) 0).1 = [scenarioOpp].
Proof. vm_compute. reflexivity. Qed.

Lemma calculateOpportunities_distinct_exchanges_witness :
  NoDup (pairExchange <$> [binanceQuote; coinbaseQuote]) ∧
  scenarioOpp ∈ (calculateOpportunities sampleClock [binanceQuote; coinbaseQuote]
                   scenarioFees (Some 0) 0).1 ∧
  Opp.buyExchange scenarioOpp ≠ Opp.sellExchange scenarioOpp.
Proof.
  assert (NoDup (pairExchange <$> [binanceQuote; coinbaseQuote])) as Hnd.
  { refine (bool_decide_unpack _ _). vm_compute. reflexivity. }
  assert (scenarioOpp ∈ (calculateOpportunities sampleClock
            [binanceQuote; coinbaseQuote] scenarioFees (Some 0) 0).1) as Hin.
  { apply (list_elem_of_lookup_2 _ 0%nat). vm_compute. reflexivity. }
  split; [exact Hnd|]. split; [exact Hin|].
  exact (calculateOpportunities_distinct_exchanges _ _ _ _ _ _ Hnd Hin).
Defined.

(** *** Fees *)

Lemma or_default_absent (d : Q) : or_default None d = d.
Proof. done. Qed.

Lemma or_default_nonzero (x d : Q) : ¬ x == 0 → or_default (Some x) d = x.
Proof.
  intros Hx. unfold or_default. destruct (Qeq_bool x 0) eqn:E; [|done].
  by apply Qeq_bool_iff in E.
Qed.

Lemma or_default_zero (x d : Q) : x == 0 → or_default (Some x) d = d.
Proof. intros Hx. unfold or_default. by apply Qeq_bool_iff in Hx as ->. Qed.

(** The fees of a returned opportunity are those [fees[exchange] || 0.1]
    gives for its two exchanges, and the total is their sum. *)
Lemma calculateOpportunities_fees clock quotes fees minProfit n o :
  o ∈ (calculateOpportunities clock quotes fees minProfit n).1 →
  Opp.buyFee o = or_default (fees !! Opp.buyExchange o) 0.1 ∧
  Opp.sellFee o = or_default (fees !! Opp.sellExchange o) 0.1 ∧
  Opp.totalFee o = Opp.buyFee o + Opp.sellFee o.
Proof.
  intros Ho.
  apply elem_of_calculateOpportunities in Ho
    as (pair & pairQuotes & i & j & b & s & _ & _ & _ & _ & _ & _ & Hc).
  change (Opp.buyFee o) with (Opp.buyFee (Opp.content o)).
  change (Opp.sellFee o) with (Opp.sellFee (Opp.content o)).
  change (Opp.totalFee o) with (Opp.totalFee (Opp.content o)).
  change (Opp.buyExchange o) with (Opp.buyExchange (Opp.content o)).
  change (Opp.sellExchange o) with (Opp.sellExchange (Opp.content o)).
  by rewrite Hc.
Qed.

(** C2 at a fee schedule that lists BINANCE with a fee of 0: the
    opportunity returned buys on BINANCE, whose entry in the schedule is
    0, and its buy fee is 0.1, not 0; the total fee is 0.7 where the
    entries add up to 0.6. *)
Theorem calculateOpportunities_zero_fee_entry :
  ∃ o, (calculateOpportunities sampleClock [binanceQuote; coinbaseQuote]
          zeroFees (Some 0) 0).1 = [o] ∧
       zeroFees !! Opp.buyExchange o = Some 0 ∧
       Opp.buyFee o = 0.1 ∧
       zeroFees !! Opp.sellExchange o = Some 0.6 ∧
       Opp.sellFee o = 0.6 ∧
       Opp.totalFee o == 0.7.
Proof.
  eexists. split; [vm_compute; reflexivity|].
  repeat split; vm_compute; reflexivity.
Qed.

(** *** Profitability *)

(** C3: every opportunity returned sells strictly above the price it buys
    at and has a net profit of at least the threshold (0.5 when none is
    given); its net profit is its gross profit minus its total fee, the
    gross profit being the spread relative to the buy price, in percent,
    and the total fee the sum of the two fees. *)
Theorem calculateOpportunities_profitable clock quotes fees minProfit n o :
  o ∈ (calculateOpportunities clock quotes fees minProfit n).1 →
  Opp.buyPrice o < Opp.sellPrice o ∧
  default 0.5 minProfit <= Opp.netProfit o ∧
  Opp.netProfit o = Opp.grossProfit o - Opp.totalFee o ∧
  Opp.grossProfit o = ((Opp.sellPrice o - Opp.buyPrice o) / Opp.buyPrice o) * 100 ∧
  Opp.totalFee o = Opp.buyFee o + Opp.sellFee o.
Proof.
  intros Ho.
  apply elem_of_calculateOpportunities in Ho
    as (pair & pairQuotes & i & j & b & s & _ & _ & _ & _ & Hlt & Hmin & Hc).
  change (Opp.buyPrice o) with (Opp.buyPrice (Opp.content o)).
  change (Opp.sellPrice o) with (Opp.sellPrice (Opp.content o)).
  change (Opp.netProfit o) with (Opp.netProfit (Opp.content o)).
  change (Opp.grossProfit o) with (Opp.grossProfit (Opp.content o)).
  change (Opp.totalFee o) with (Opp.totalFee (Opp.content o)).
  change (Opp.buyFee o) with (Opp.buyFee (Opp.content o)).
  change (Opp.sellFee o) with (Opp.sellFee (Opp.content o)).
  rewrite Hc. done.
Qed.

Lemma calculateOpportunities_profitable_witness :
  scenarioOpp ∈ (calculateOpportunities sampleClock [binanceQuote; coinbaseQuote]
                   scenarioFees (Some 0) 0).1 ∧
  Opp.buyPrice scenarioOpp < Opp.sellPrice scenarioOpp ∧
  default 0.5 (Some 0) <= Opp.netProfit scenarioOpp ∧
  Opp.netProfit scenarioOpp = Opp.grossProfit scenarioOpp - Opp.totalFee scenarioOpp ∧
  Opp.grossProfit scenarioOpp
  = ((Opp.sellPrice scenarioOpp - Opp.buyPrice scenarioOpp) / Opp.buyPrice scenarioOpp) * 100 ∧
  Opp.totalFee scenarioOpp = Opp.buyFee scenarioOpp + Opp.sellFee scenarioOpp.
Proof.
  assert (scenarioOpp ∈ (calculateOpportunities sampleClock
            [binanceQuote; coinbaseQuote] scenarioFees (Some 0) 0).1) as Hin.
  { apply (list_elem_of_lookup_2 _ 0%nat). vm_compute. reflexivity. }
  split; [exact Hin|].
  exact (calculateOpportunities_profitable _ _ _ _ _ _ Hin).
Defined.

(** *** Ranking *)

(** C4: the array returned is sorted by net profit, highest first: of two
    positions, the earlier one holds a net profit at least as high as the
    later one. *)
Theorem calculateOpportunities_sorted clock quotes fees minProfit n k l ok ol :
  (k < l)%nat →
  (calculateOpportunities clock quotes fees minProfit n).1 !! k = Some ok →
  (calculateOpportunities clock quotes fees minProfit n).1 !! l = Some ol →
  Opp.netProfit ol <= Opp.netProfit ok.
Proof.
  intros Hkl Hk Hl. apply before_byNetProfitDesc.
  eapply (StronglySorted_lookup (before byNetProfitDesc)); [|exact Hkl|exact Hk|exact Hl].
  unfold calculateOpportunities. cbn [fst].
  apply Array_sort_sorted.
  - apply byNetProfitDesc_total.
  - apply byNetProfitDesc_trans.
Qed.

Lemma calculateOpportunities_sorted_witness :
  (0 < 2)%nat ∧
  (calculateOpportunities sampleClock [binanceQuote; coinbaseQuote; krakenQuote]
     scenarioFees (Some 0) 0).1 !! 0%nat = Some krakenOpp ∧
  (calculateOpportunities sampleClock [binanceQuote; coinbaseQuote; krakenQuote]
     scenarioFees (Some 0) 0).1 !! 2%nat = Some scenarioOpp ∧
  Opp.netProfit scenarioOpp <= Opp.netProfit krakenOpp.
Proof.
  assert (0 < 2)%nat as Hlt by lia.
  assert ((calculateOpportunities sampleClock [binanceQuote; coinbaseQuote; krakenQuote]
             scenarioFees (Some 0) 0).1 !! 0%nat = Some krakenOpp) as H0.
  { vm_compute. reflexivity. }
  assert ((calculateOpportunities sampleClock [binanceQuote; coinbaseQuote; krakenQuote]
             scenarioFees (Some 0) 0).1 !! 2%nat = Some scenarioOpp) as H2.
  { vm_compute. reflexivity. }
  split; [exact Hlt|]. split; [exact H0|]. split; [exact H2|].
  exact (calculateOpportunities_sorted _ _ _ _ _ _ _ _ _ Hlt H0 H2).
Defined.

(** *** The threshold *)

Lemma offers_threshold fees t1 t2 pair b s :
  t1 <= t2 →
  offers fees t2 pair b s `sublist_of` offers fees t1 pair b s.
Proof.
  intros Ht. unfold offers.
  destruct (Qle_bool (Quote.bid s) (Quote.ask b)); [done|].
  destruct (Qle_bool t2 _) eqn:E2; [|apply sublist_nil_l].
  apply Qle_bool_iff in E2.
  assert (t1 <= Opp.netProfit (candidate fees pair b s)) as E1
    by (by eapply Qle_trans).
  apply Qle_bool_iff in E1. by rewrite E1.
Qed.

Lemma bind_sublist_pointwise {X Y : Type} (f g : X -> list Y) (l : list X) :
  (∀ x, f x `sublist_of` g x) → (l ≫= f) `sublist_of` (l ≫= g).
Proof.
  intros Hfg. induction l as [|x l IH]; csimpl; [done|].
  by apply sublist_app.
Qed.

Lemma pairOffers_threshold fees t1 t2 pair pairQuotes :
  t1 <= t2 →
  pairOffers fees t2 pair pairQuotes `sublist_of` pairOffers fees t1 pair pairQuotes.
Proof.
  intros Ht. unfold pairOffers.
  destruct (length pairQuotes <? 2)%nat; [done|].
  apply bind_sublist_pointwise. intros i.
  apply bind_sublist_pointwise. intros j.
  destruct (i =? j)%nat; [done|].
  destruct (pairQuotes !! i); [|done].
  destruct (pairQuotes !! j); [|done].
  by apply offers_threshold.
Qed.

Lemma allOffers_threshold fees t1 t2 quotes :
  t1 <= t2 →
  allOffers fees t2 quotes `sublist_of` allOffers fees t1 quotes.
Proof.
  intros Ht. apply bind_sublist_pointwise. intros entry.
  by apply pairOffers_threshold.
Qed.

(** C5: with the quotes and the fees fixed and [t1 <= t2], every
    opportunity returned for the threshold [t2] is, up to its time stamp,
    one returned for [t1], and no more opportunities are returned for [t2]
    than for [t1]; counted with repetitions, the contents returned for
    [t2] are among those returned for [t1].  The two runs may read
    different clocks. *)
Theorem calculateOpportunities_threshold clock1 n1 clock2 n2 quotes fees t1 t2 :
  t1 <= t2 →
  (∀ o, o ∈ (calculateOpportunities clock2 quotes fees (Some t2) n2).1 →
     ∃ o', o' ∈ (calculateOpportunities clock1 quotes fees (Some t1) n1).1 ∧
           Opp.content o' = Opp.content o) ∧
  (length (calculateOpportunities clock2 quotes fees (Some t2) n2).1
   ≤ length (calculateOpportunities clock1 quotes fees (Some t1) n1).1)%nat ∧
  Opp.content <$> (calculateOpportunities clock2 quotes fees (Some t2) n2).1
  ⊆+ Opp.content <$> (calculateOpportunities clock1 quotes fees (Some t1) n1).1.
Proof.
  intros Ht.
  assert (Opp.content <$> (calculateOpportunities clock2 quotes fees (Some t2) n2).1
          ⊆+ Opp.content <$> (calculateOpportunities clock1 quotes fees (Some t1) n1).1)
    as Hsub.
  { rewrite !calculateOpportunities_content, !Array_sort_Permutation.
    apply sublist_submseteq. by apply allOffers_threshold. }
  split; [|split; [|exact Hsub]].
  - intros o Ho.
    apply (list_elem_of_fmap_2 Opp.content) in Ho.
    eapply elem_of_submseteq in Ho; [|exact Hsub].
    apply list_elem_of_fmap in Ho as (o' & Heq & Ho'). by exists o'.
  - apply submseteq_length in Hsub. by rewrite !length_fmap in Hsub.
Qed.

Lemma calculateOpportunities_threshold_witness :
  0 <= 1 ∧
  (∀ o, o ∈ (calculateOpportunities sampleClock
               [binanceQuote; coinbaseQuote; krakenQuote] scenarioFees (Some 1%Q) 7).1 →
     ∃ o', o' ∈ (calculateOpportunities sampleClock
                   [binanceQuote; coinbaseQuote; krakenQuote] scenarioFees (Some 0%Q) 0).1 ∧
           Opp.content o' = Opp.content o) ∧
  (length (calculateOpportunities sampleClock
             [binanceQuote; coinbaseQuote; krakenQuote] scenarioFees (Some 1%Q) 7).1
   ≤ length (calculateOpportunities sampleClock
               [binanceQuote; coinbaseQuote; krakenQuote] scenarioFees (Some 0%Q) 0).1)%nat ∧
  Opp.content <$> (calculateOpportunities sampleClock
                     [binanceQuote; coinbaseQuote; krakenQuote] scenarioFees (Some 1%Q) 7).1
  ⊆+ Opp.content <$> (calculateOpportunities sampleClock
                        [binanceQuote; coinbaseQuote; krakenQuote] scenarioFees (Some 0%Q) 0).1.
Proof.
  assert (0 <= 1) as Ht by (vm_compute; discriminate).
  split; [exact Ht|].
  exact (calculateOpportunities_threshold sampleClock 0 sampleClock 7
           [binanceQuote; coinbaseQuote; krakenQuote] scenarioFees 0 1 Ht).
Defined.

(** *** Scenario A *)

(** C6: on the two quotes of scenario A, whatever their volumes and
    capture times, with the fees BINANCE 0.1 and COINBASE 0.6 and the
    threshold 0, exactly one opportunity is returned: buy on BINANCE at
    42000, sell on COINBASE at 42480, gross profit 1.1429 and net profit
    0.4429 to four decimal places, total fee 0.7; with the threshold 0.5
    nothing is returned. *)
Theorem calculateOpportunities_scenario_A clock n av1 bv1 ts1 av2 bv2 ts2 :
  let quotes :=
    [ {| Quote.exchange := "BINANCE"; Quote.pair := "BTC/USDT";
         Quote.ask := 42000; Quote.bid := 41990;
         Quote.askVolume := av1; Quote.bidVolume := bv1; Quote.timestamp := ts1 |};
      {| Quote.exchange := "COINBASE"; Quote.pair := "BTC/USDT";
         Quote.ask := 42500; Quote.bid := 42480;
         Quote.askVolume := av2; Quote.bidVolume := bv2; Quote.timestamp := ts2 |} ] in
  (∃ o, (calculateOpportunities clock quotes scenarioFees (Some 0) n).1 = [o] ∧
        Opp.pair o = "BTC/USDT" ∧
        Opp.buyExchange o = "BINANCE" ∧ Opp.buyPrice o = 42000 ∧
        Opp.sellExchange o = "COINBASE" ∧ Opp.sellPrice o = 42480 ∧
        Qabs (Opp.grossProfit o - 1.1429) < 0.00005 ∧
        Opp.totalFee o == 0.7 ∧
        Qabs (Opp.netProfit o - 0.4429) < 0.00005) ∧
  (calculateOpportunities clock quotes scenarioFees (Some 0.5) n).1 = [].
Proof.
  intros quotes. split.
  - eexists. split; [reflexivity|].
    repeat split; vm_compute; reflexivity.
  - reflexivity.
Qed.

(** ** Analytics *)

(** C7: the statistics of no opportunity at all are four zeros; the case
    is returned before any division. *)
Theorem getStats_empty :
  getStats [] = {| count := 0; avgProfit := 0; maxProfit := 0; totalVolume := 0 |}.
Proof. reflexivity. Qed.

(** Past the empty case the division is by a positive count: the average
    times the count is the sum. *)
Lemma getStats_average (opp : Opp.t) (rest : list Opp.t) :
  avgProfit (getStats (opp :: rest)) * inject_Z (Z.of_nat (count (getStats (opp :: rest))))
  == foldl Qplus 0 (map Opp.netProfit (opp :: rest)).
Proof.
  cbn [getStats avgProfit count]. rewrite length_map.
  field. cbn [length]. rewrite Nat2Z.inj_succ.
  unfold Qeq, inject_Z. cbn [Qnum Qden]. lia.
Qed.

(** C8: for a positive buy price and a positive investment, the breakdown
    [calculateProfitAmount] returns holds the investment and the
    quantities of the specified formula, each computed from the ones
    before it. *)
Theorem calculateProfitAmount_formula (opp : Opp.t) (investment : Q) :
  0 < Opp.buyPrice opp →
  0 < investment →
  investmentAmount (calculateProfitAmount opp investment) = investment ∧
  projectProfit_spec opp investment (calculateProfitAmount opp investment).
Proof. intros _ _. unfold projectProfit_spec. repeat split. Qed.

Lemma calculateProfitAmount_formula_witness :
  0 < Opp.buyPrice scenarioOpp ∧
  0 < 1000 ∧
  investmentAmount (calculateProfitAmount scenarioOpp 1000) = 1000 ∧
  projectProfit_spec scenarioOpp 1000 (calculateProfitAmount scenarioOpp 1000).
Proof.
  assert (0 < Opp.buyPrice scenarioOpp) as Hp by (vm_compute; reflexivity).
  assert (0 < 1000) as Hi by (vm_compute; reflexivity).
  split; [exact Hp|]. split; [exact Hi|].
  exact (calculateProfitAmount_formula scenarioOpp 1000 Hp Hi).
Defined.

Lemma Qlt_bool_iff (a b : Q) : Qlt_bool a b = true ↔ a < b.
Proof.
  unfold Qlt_bool. rewrite negb_true_iff. split.
  - intros H. apply Qnot_le_lt. intros Hle. apply Qle_bool_iff in Hle. congruence.
  - intros H. destruct (Qle_bool b a) eqn:E; [|done].
    apply Qle_bool_iff in E. by apply Qlt_not_le in H.
Qed.

(** C9: [isValid] answers true exactly when the age of the opportunity,
    the time read minus the time it was detected at, is strictly below
    the maximum age (60000 ms when none is given) and its net profit is
    strictly positive. *)
Theorem isValid_iff (clock : Clock) (opp : Opp.t) (maxAge : option Q) (n : nat) :
  (isValid clock opp maxAge n).1 = true ↔
  inject_Z (clock n - getTime (Opp.timestamp opp)) < default 60000 maxAge ∧
  0 < Opp.netProfit opp.
Proof.
  unfold isValid. cbn [fst].
  by rewrite andb_true_iff, !Qlt_bool_iff.
Qed.

(** *** The filters *)

Lemma keeps_filter {A : Type} (P : A -> Prop) (f : A -> bool) (l : list A) :
  (∀ x, f x = true ↔ P x) → keeps P l (List.filter f l).
Proof.
  intros Hf. induction l as [|x l IH]; simpl; [constructor|].
  destruct (f x) eqn:E.
  - constructor; [by apply Hf|done].
  - constructor; [|done]. rewrite <- Hf. congruence.
Qed.

Lemma keeps_all {A : Type} (P : A -> Prop) (l : list A) :
  (∀ x, P x) → keeps P l l.
Proof. intros HP. induction l; constructor; auto. Qed.

(** What [keeps] says: the result is a subsequence of the input that has
    exactly the elements of the input that satisfy the condition. *)
Lemma keeps_sublist {A : Type} (P : A -> Prop) (l r : list A) :
  keeps P l r → r `sublist_of` l.
Proof. induction 1; by constructor. Qed.

Lemma keeps_elem_of {A : Type} (P : A -> Prop) (l r : list A) (x : A) :
  keeps P l r → x ∈ r ↔ x ∈ l ∧ P x.
Proof.
  induction 1 as [|y l r Hy _ IH|y l r Hy _ IH].
  - rewrite elem_of_nil. tauto.
  - rewrite !elem_of_cons, IH. split.
    + intros [->|[? ?]]; auto.
    + intros [[->|?] ?]; auto.
  - rewrite elem_of_cons, IH. split.
    + intros [? ?]; auto.
    + intros [[->|?] ?]; [done|auto].
Qed.

(** C10: [filterByPair] and [filterByMinProfit] return their input with
    exactly the opportunities that satisfy the condition of the filter
    kept, unchanged and in the order of the input; for [filterByPair] the
    condition holds of every opportunity when no pair, the empty pair or
    "all" is asked for. *)
Theorem filters_keep (opportunities : list Opp.t) (pair : option string) (minProfit : Q) :
  keeps (pairSelected pair) opportunities (filterByPair opportunities pair) ∧
  keeps (λ opp, minProfit <= Opp.netProfit opp) opportunities
        (filterByMinProfit opportunities minProfit).
Proof.
  split.
  - unfold filterByPair. destruct pair as [p|]; [|by apply keeps_all].
    destruct (String.eqb_spec p "") as [->|Hne1]; [apply keeps_all; simpl; auto|].
    destruct (String.eqb_spec p "all") as [->|Hne2]; [apply keeps_all; simpl; auto|].
    cbn [orb]. apply keeps_filter. intros opp. rewrite String.eqb_eq.
    simpl. split; [auto|]. intros [?|[?|?]]; done.
  - apply keeps_filter. intros opp. apply Qle_bool_iff.
Qed.

(** With the divisions by a non-zero buy price and a non-zero investment,
    the projected profit in percent depends on the prices and the fees
    only. *)
Lemma calculateProfitAmount_profitPercent (opp : Opp.t) (investment : Q) :
  ¬ Opp.buyPrice opp == 0 →
  ¬ investment == 0 →
  profitPercent (calculateProfitAmount opp investment)
  == (Opp.sellPrice opp / Opp.buyPrice opp
      * (1 - Opp.buyFee opp / 100) * (1 - Opp.sellFee opp / 100) - 1) * 100.
Proof.
  intros Hp Hi. cbn [calculateProfitAmount profitPercent]. field. auto.
Qed.

(** *** Sample runs of the analytics *)

Example getStats_sample :
  let stats := getStats [krakenOpp; scenarioOpp] in
  count stats = 2%nat ∧
  avgProfit stats * 2 == Opp.netProfit krakenOpp + Opp.netProfit scenarioOpp ∧
  maxProfit stats == Opp.netProfit krakenOpp ∧
  totalVolume stats == 1.5.
Proof. repeat split; vm_compute; reflexivity. Qed.

Example isValid_fresh :
  (isValid sampleClock scenarioOpp None 5).1 = true.
Proof. reflexivity. Qed.

Example isValid_stale :
  (isValid (λ _, 1700000060000%Z) scenarioOpp None 5).1 = false.
Proof. reflexivity. Qed.

Example isValid_unprofitable :
  (isValid sampleClock
     {| Opp.pair := "BTC/USDT";
        Opp.buyExchange := "BINANCE"; Opp.buyPrice := 42000;
        Opp.sellExchange := "COINBASE"; Opp.sellPrice := 42100;
        Opp.spread := 100; Opp.grossProfit := 10000 / 42000;
        Opp.netProfit := 10000 / 42000 - 0.7;
        Opp.buyFee := 0.1; Opp.sellFee := 0.6; Opp.totalFee := 0.7;
        Opp.volume := 0.5; Opp.timestamp := toISOString 1700000000000 |}
     None 5).1 = false.
Proof. reflexivity. Qed.

Example filterByPair_sample :
  filterByPair [krakenOpp; scenarioOpp] (Some "all") = [krakenOpp; scenarioOpp] ∧
  filterByPair [krakenOpp; scenarioOpp] (Some "ETH/USDT") = [] ∧
  filterByMinProfit [krakenOpp; scenarioOpp] 1 = [krakenOpp].
Proof. repeat split. Qed.

(** * Further properties of the code *)

(** ** groupByPair *)

Lemma push_group_fmap (F : string -> list Quote.t) (K : list string) pair quote :
  NoDup K →
  push_group pair quote ((λ k, (k, F k)) <$> K)
  = if decide (pair ∈ K)
    then (λ k, (k, if String.eqb k pair then F k ++ [quote] else F k)) <$> K
    else ((λ k, (k, F k)) <$> K) ++ [(pair, [quote])].
Proof.
  induction 1 as [|k K Hk HK IH]; csimpl.
  - done.
  - destruct (String.eqb_spec k pair) as [->|Hne].
    + rewrite decide_True by left. f_equal.
      apply list_fmap_ext. intros _ k' Hk'%list_elem_of_lookup_2.
      destruct (String.eqb_spec k' pair) as [->|]; [done|done].
    + rewrite IH. destruct (decide (pair ∈ K)) as [Hin|Hnin].
      * rewrite decide_True by (by right). csimpl.
        by destruct (String.eqb_spec k pair).
      * rewrite decide_False; [done|].
        intros [?|?]%elem_of_cons; congruence.
Qed.

Lemma firstPairs_snoc quotes quote :
  firstPairs (quotes ++ [quote])
  = if decide (Quote.pair quote ∈ firstPairs quotes)
    then firstPairs quotes else firstPairs quotes ++ [Quote.pair quote].
Proof.
  unfold firstPairs. rewrite fmap_app, reverse_app. csimpl.
  destruct (decide_rel elem_of (Quote.pair quote) (reverse (Quote.pair <$> quotes)))
    as [Hin|Hnin].
  - rewrite decide_True; [done|].
    by rewrite elem_of_reverse, elem_of_remove_dups.
  - rewrite decide_False; [by rewrite reverse_cons|].
    by rewrite elem_of_reverse, elem_of_remove_dups.
Qed.

Lemma NoDup_firstPairs quotes : NoDup (firstPairs quotes).
Proof. unfold firstPairs. rewrite reverse_Permutation. apply NoDup_remove_dups. Qed.

Lemma elem_of_firstPairs quotes pair :
  pair ∈ firstPairs quotes ↔ ∃ q, q ∈ quotes ∧ Quote.pair q = pair.
Proof.
  unfold firstPairs.
  rewrite elem_of_reverse, elem_of_remove_dups, elem_of_reverse, list_elem_of_fmap.
  split; intros (q & H1 & H2); exists q; done.
Qed.

Lemma quotesOfPair_snoc pair quotes quote :
  quotesOfPair pair (quotes ++ [quote])
  = quotesOfPair pair quotes
    ++ (if String.eqb (Quote.pair quote) pair then [quote] else []).
Proof. unfold quotesOfPair. by rewrite List.filter_app. Qed.

Lemma quotesOfPair_nil pair quotes :
  pair ∉ firstPairs quotes → quotesOfPair pair quotes = [].
Proof.
  rewrite elem_of_firstPairs. intros Hnin. unfold quotesOfPair.
  induction quotes as [|q quotes IH]; simpl; [done|].
  destruct (String.eqb_spec (Quote.pair q) pair) as [Heq|Hne].
  - exfalso. apply Hnin. exists q. split; [left|done].
  - apply IH. intros (q' & Hin & Hq'). apply Hnin. exists q'. split; [by right|done].
Qed.

(** [groupByPair] lists the trading pairs of the quotes, each once and
    in the order they first occur in, and gives each pair all the quotes
    of the input that are for it, in the order of the input. *)
Lemma groupByPair_fmap (quotes : list Quote.t) :
  groupByPair quotes = (λ pair, (pair, quotesOfPair pair quotes)) <$> firstPairs quotes.
Proof.
  induction quotes as [|q quotes IH] using rev_ind; [done|].
  unfold groupByPair in *. rewrite foldl_snoc, IH.
  rewrite push_group_fmap by apply NoDup_firstPairs.
  rewrite firstPairs_snoc.
  destruct (decide (Quote.pair q ∈ firstPairs quotes)) as [Hin|Hnin].
  - apply list_fmap_ext. intros _ k _. rewrite quotesOfPair_snoc.
    rewrite (String.eqb_sym k).
    destruct (String.eqb (Quote.pair q) k); [done|by rewrite app_nil_r].
  - rewrite fmap_app. csimpl. f_equal.
    + apply list_fmap_ext. intros _ k Hk%list_elem_of_lookup_2.
      rewrite quotesOfPair_snoc.
      destruct (String.eqb_spec (Quote.pair q) k) as [<-|]; [done|].
      by rewrite app_nil_r.
    + rewrite quotesOfPair_snoc, String.eqb_refl.
      by rewrite quotesOfPair_nil.
Qed.

Example firstPairs_sample :
  firstPairs [binanceQuote; etherQuote; coinbaseQuote; etherQuote]
  = ["BTC/USDT"; "ETH/USDT"].
Proof. reflexivity. Qed.







(** ** The clock readings of a run *)

Lemma foldl_invariant {S X : Type} (I : S -> Prop) (f : S -> X -> S) (l : list X) (st : S) :
  (∀ st x, I st → I (f st x)) → I st → I (foldl f st l).
Proof.
  intros Hf. revert st. induction l as [|x l IH]; intros st Hst; simpl; [done|].
  apply IH. by apply Hf.
Qed.

Lemma visit_stamped clock n fees minProfit pair b s st :
  stamped clock n st → stamped clock n (visit clock fees minProfit pair b s st).
Proof.
  intros [Hts Hr]. unfold visit.
  destruct (Qle_bool (Quote.bid s) (Quote.ask b)); [done|].
  destruct (Qle_bool minProfit _); [|done].
  unfold stamped. cbn [opportunities reads].
  rewrite length_app, fmap_app, Hts. cbn [length].
  rewrite Nat.add_1_r, seq_S, fmap_app, Hr. split; [done|lia].
Qed.

Lemma scanPair_stamped clock n fees minProfit pair pairQuotes st :
  stamped clock n st → stamped clock n (scanPair clock fees minProfit pair pairQuotes st).
Proof.
  unfold scanPair. destruct (length pairQuotes <? 2)%nat; [done|].
  apply foldl_invariant. intros st1 i. apply foldl_invariant. intros st2 j Hst2.
  destruct (i =? j)%nat; [done|].
  destruct (pairQuotes !! i); [|done].
  destruct (pairQuotes !! j); [|done].
  by apply visit_stamped.
Qed.

Lemma calculateOpportunities_stamped clock quotes fees minProfit n :
  ∃ st, stamped clock n st ∧
        calculateOpportunities clock quotes fees minProfit n
        = (Array_sort byNetProfitDesc (opportunities st), reads st).
Proof.
  eexists. split; [|reflexivity].
  apply foldl_invariant.
  - intros st [key pairQuotes]. apply scanPair_stamped.
  - split; [done|]. cbn [opportunities reads length]. lia.
Qed.

(** X4: a run of [calculateOpportunities] reads the clock once for each
    opportunity it returns, and not otherwise. *)
Theorem calculateOpportunities_reads clock quotes fees minProfit n :
  (calculateOpportunities clock quotes fees minProfit n).2
  = (n + length (calculateOpportunities clock quotes fees minProfit n).1)%nat.
Proof.
  destruct (calculateOpportunities_stamped clock quotes fees minProfit n)
    as (st & [_ Hr] & ->).
  cbn [fst snd]. by rewrite Array_sort_length.
Qed.

(** X5: the time stamps of the opportunities a run returns are the clock
    readings the run made, one each: up to the order of the ranking, they
    are the readings [n], [n + 1], ... that follow the [n] readings made
    before the run. *)
Theorem calculateOpportunities_timestamps clock quotes fees minProfit n :
  Opp.timestamp <$> (calculateOpportunities clock quotes fees minProfit n).1
  ≡ₚ (λ k, toISOString (clock k))
       <$> seq n (length (calculateOpportunities clock quotes fees minProfit n).1).
Proof.
  destruct (calculateOpportunities_stamped clock quotes fees minProfit n)
    as (st & [Hts _] & ->).
  cbn [fst]. by rewrite Array_sort_length, Array_sort_Permutation, Hts.
Qed.

(** ** Inputs that give nothing, and what is never missed *)









(** ** sort *)

Lemma Array_sort_sorted_id {A : Type} (cmp : A -> A -> Q) (l : list A) :
  StronglySorted (before cmp) l → Array_sort cmp l = l.
Proof.
  unfold Array_sort. induction 1 as [|x l Hl IH Hx]; simpl; [done|].
  rewrite IH. destruct l as [|y l]; simpl; [done|].
  apply Forall_cons in Hx as [Hxy _]. apply Qle_bool_iff in Hxy.
  unfold before in Hxy. by rewrite Hxy.
Qed.

Lemma bySpreadDesc_total (a b : Opp.t) :
  before bySpreadDesc a b ∨ before bySpreadDesc b a.
Proof.
  unfold before, bySpreadDesc.
  destruct (Qlt_le_dec (Opp.spread a) (Opp.spread b)) as [H|H].
  - right. apply Qlt_le_weak in H. lra.
  - left. lra.
Qed.

Lemma bySpreadDesc_trans (a b c : Opp.t) :
  before bySpreadDesc a b → before bySpreadDesc b c → before bySpreadDesc a c.
Proof. unfold before, bySpreadDesc. lra. Qed.

Lemma StronglySorted_weaken {A : Type} (R R' : relation A) (l : list A) :
  (∀ a b, R a b → R' a b) → StronglySorted R l → StronglySorted R' l.
Proof.
  intros HR. induction 1 as [|x l Hl IH Hx]; constructor; [done|].
  eapply Forall_impl; [exact Hx|]. intros y. apply HR.
Qed.

Lemma sort_perm localeCompare (opportunities : list Opp.t) (sortBy : string) :
  sort localeCompare opportunities sortBy ≡ₚ opportunities.
Proof.
  unfold sort.
  destruct (String.eqb sortBy "profit"); [apply Array_sort_Permutation|].
  destruct (String.eqb sortBy "pair"); [apply Array_sort_Permutation|].
  destruct (String.eqb sortBy "spread"); [apply Array_sort_Permutation|].
  done.
Qed.

(** X11: whatever the key and the string comparison, [sort] returns the
    opportunities it is given, each as often as it is given, in some
    order: none is dropped, added or changed, and as many come back as
    went in. *)
Theorem sort_Permutation localeCompare (opportunities : list Opp.t) (sortBy : string) :
  sort localeCompare opportunities sortBy ≡ₚ opportunities ∧
  length (sort localeCompare opportunities sortBy) = length opportunities ∧
  ∀ o, o ∈ sort localeCompare opportunities sortBy ↔ o ∈ opportunities.
Proof.
  pose proof (sort_perm localeCompare opportunities sortBy) as Hp.
  split; [exact Hp|]. split.
  - by apply Permutation_length.
  - intros o. by rewrite Hp.
Qed.

(** X12: with the key "profit" the result of [sort] is in the order of
    the net profits, highest first, and with the key "spread" in the order
    of the spreads, highest first. *)
Theorem sort_sorted localeCompare (opportunities : list Opp.t) :
  StronglySorted (λ a b, Opp.netProfit b <= Opp.netProfit a)
    (sort localeCompare opportunities "profit") ∧
  StronglySorted (λ a b, Opp.spread b <= Opp.spread a)
    (sort localeCompare opportunities "spread").
Proof.
  split.
  - change (sort localeCompare opportunities "profit")
      with (Array_sort byNetProfitDesc opportunities).
    eapply StronglySorted_weaken;
      [|apply Array_sort_sorted;
        [apply byNetProfitDesc_total|apply byNetProfitDesc_trans]].
    intros a b. apply before_byNetProfitDesc.
  - change (sort localeCompare opportunities "spread")
      with (Array_sort bySpreadDesc opportunities).
    eapply StronglySorted_weaken;
      [|apply Array_sort_sorted; [apply bySpreadDesc_total|apply bySpreadDesc_trans]].
    intros a b. unfold before, bySpreadDesc. lra.
Qed.

(** A key other than "profit", "pair" and "spread" is no error:
    [sort] returns the opportunities in the order it is given them. *)
Theorem sort_other_key localeCompare (opportunities : list Opp.t) (sortBy : string) :
  sortBy ≠ "profit" → sortBy ≠ "pair" → sortBy ≠ "spread" →
  sort localeCompare opportunities sortBy = opportunities.
Proof.
  intros H1 H2 H3. unfold sort.
  apply String.eqb_neq in H1 as ->. apply String.eqb_neq in H2 as ->.
  by apply String.eqb_neq in H3 as ->.
Qed.

(** X13: the array [calculateOpportunities] returns is in the order of
    the key "profit" already: sorting it by profit gives it back as it
    is. *)
Theorem sort_profit_calculateOpportunities localeCompare clock quotes fees minProfit n :
  sort localeCompare (calculateOpportunities clock quotes fees minProfit n).1 "profit"
  = (calculateOpportunities clock quotes fees minProfit n).1.
Proof.
  change (sort localeCompare ?l "profit") with (Array_sort byNetProfitDesc l).
  apply Array_sort_sorted_id.
  unfold calculateOpportunities. cbn [fst].
  apply Array_sort_sorted; [apply byNetProfitDesc_total|apply byNetProfitDesc_trans].
Qed.

Lemma sort_other_key_witness :
  "volume" ≠ "profit" ∧ "volume" ≠ "pair" ∧ "volume" ≠ "spread" ∧
  sort (λ _ _, 0) [scenarioOpp; krakenOpp] "volume" = [scenarioOpp; krakenOpp].
Proof.
  assert ("volume" ≠ "profit") as H1 by discriminate.
  assert ("volume" ≠ "pair") as H2 by discriminate.
  assert ("volume" ≠ "spread") as H3 by discriminate.
  split; [exact H1|]. split; [exact H2|]. split; [exact H3|].
  exact (sort_other_key (λ _ _, 0) [scenarioOpp; krakenOpp] "volume" H1 H2 H3).
Defined.

(** ** The filters and the detector *)

Section FilterSort.
Context {A : Type} (cmp : A -> A -> Q) (f : A -> bool).
Hypothesis cmp_trans : ∀ a b c, before cmp a b → before cmp b c → before cmp a c.

Lemma filter_sort_insert (x : A) (l : list A) :
  StronglySorted (before cmp) l →
  List.filter f (sort_insert cmp x l)
  = if f x then sort_insert cmp x (List.filter f l) else List.filter f l.
Proof.
  induction 1 as [|y l Hl IH Hy]; simpl.
  - by destruct (f x).
  - destruct (Qle_bool (cmp x y) 0) eqn:E; simpl.
    + destruct (f x) eqn:Ex, (f y) eqn:Ey; simpl; rewrite ?E; try done.
      (* x is kept, y is not: x goes in front of what is kept of l *)
      apply Qle_bool_iff in E.
      assert (Forall (before cmp x) (List.filter f l)) as Hx.
      { apply Forall_forall. intros z Hz%list_elem_of_In%filter_In.
        destruct Hz as [Hz%list_elem_of_In _].
        rewrite Forall_forall in Hy. eapply cmp_trans; [exact E|by apply Hy]. }
      destruct (List.filter f l) as [|z k]; simpl; [done|].
      apply Forall_cons in Hx as [Hxz _]. apply Qle_bool_iff in Hxz.
      unfold before in Hxz. by rewrite Hxz.
    + rewrite IH. destruct (f x) eqn:Ex, (f y) eqn:Ey; simpl; rewrite ?E; done.
Qed.

Hypothesis cmp_total : ∀ a b, before cmp a b ∨ before cmp b a.

(** Filtering a sorted array is sorting the filtered array: the sort is
    stable. *)
Lemma filter_Array_sort (l : list A) :
  List.filter f (Array_sort cmp l) = Array_sort cmp (List.filter f l).
Proof.
  induction l as [|x l IH]; simpl; [done|].
  change (foldr (sort_insert cmp) [] l) with (Array_sort cmp l).
  rewrite filter_sort_insert by (by apply Array_sort_sorted).
  rewrite IH. by destruct (f x).
Qed.
End FilterSort.

Lemma filter_bind {X Y : Type} (f : Y -> bool) (g : X -> list Y) (l : list X) :
  List.filter f (l ≫= g) = l ≫= (λ x, List.filter f (g x)).
Proof.
  induction l as [|x l IH]; csimpl; [done|].
  by rewrite List.filter_app, IH.
Qed.

Lemma bind_ext_eq {X Y : Type} (g h : X -> list Y) (l : list X) :
  (∀ x, g x = h x) → l ≫= g = l ≫= h.
Proof. intros Hgh. induction l as [|x l IH]; csimpl; [done|]. by rewrite Hgh, IH. Qed.

Lemma filter_offers fees t1 t2 pair b s :
  t1 <= t2 →
  List.filter (λ o, Qle_bool t2 (Opp.netProfit o)) (offers fees t1 pair b s)
  = offers fees t2 pair b s.
Proof.
  intros Ht. unfold offers.
  destruct (Qle_bool (Quote.bid s) (Quote.ask b)); [done|].
  destruct (Qle_bool t2 _) eqn:E2.
  - assert (Qle_bool t1 (Opp.netProfit (candidate fees pair b s)) = true) as ->.
    { apply Qle_bool_iff. apply Qle_bool_iff in E2. by eapply Qle_trans. }
    cbn [List.filter]. by rewrite E2.
  - destruct (Qle_bool t1 _); cbn [List.filter]; [by rewrite E2|done].
Qed.

Lemma filter_allOffers fees t1 t2 quotes :
  t1 <= t2 →
  List.filter (λ o, Qle_bool t2 (Opp.netProfit o)) (allOffers fees t1 quotes)
  = allOffers fees t2 quotes.
Proof.
  intros Ht. unfold allOffers. rewrite filter_bind.
  apply bind_ext_eq. intros [key pairQuotes]. unfold pairOffers. cbn [fst snd].
  destruct (length pairQuotes <? 2)%nat; [done|].
  rewrite filter_bind. apply bind_ext_eq. intros i.
  rewrite filter_bind. apply bind_ext_eq. intros j.
  destruct (i =? j)%nat; [done|].
  destruct (pairQuotes !! i); [|done].
  destruct (pairQuotes !! j); [|done].
  by apply filter_offers.
Qed.

Lemma filter_fmap_content (f : Opp.t -> bool) (l : list Opp.t) :
  (∀ o, f (Opp.content o) = f o) →
  Opp.content <$> List.filter f l = List.filter f (Opp.content <$> l).
Proof.
  intros Hf. induction l as [|o l IH]; csimpl; [done|].
  rewrite Hf. destruct (f o); csimpl; by rewrite IH.
Qed.

(** X14: raising the threshold afterwards is raising it before.  For
    [t1 <= t2], filtering the result of a run for the threshold [t1] with
    [filterByMinProfit] at [t2] gives, in the same order and up to the
    time stamps, the result of a run for [t2]. *)
Theorem filterByMinProfit_calculateOpportunities
    clock1 n1 clock2 n2 quotes fees t1 t2 :
  t1 <= t2 →
  Opp.content <$> filterByMinProfit
                    (calculateOpportunities clock1 quotes fees (Some t1) n1).1 t2
  = Opp.content <$> (calculateOpportunities clock2 quotes fees (Some t2) n2).1.
Proof.
  intros Ht. unfold filterByMinProfit.
  rewrite filter_fmap_content by done.
  rewrite !calculateOpportunities_content.
  rewrite filter_Array_sort
    by (first [apply byNetProfitDesc_trans | apply byNetProfitDesc_total]).
  cbn [default]. by rewrite filter_allOffers.
Qed.

Lemma filterByMinProfit_calculateOpportunities_witness :
  0 <= 1 ∧
  Opp.content <$> filterByMinProfit
                    (calculateOpportunities sampleClock
                       [binanceQuote; coinbaseQuote; krakenQuote]
                       scenarioFees (Some 0) 0).1 1
  = Opp.content <$> (calculateOpportunities sampleClock
                       [binanceQuote; coinbaseQuote; krakenQuote]
                       scenarioFees (Some 1) 7).1.
Proof.
  assert (0 <= 1) as Ht by (vm_compute; discriminate).
  split; [exact Ht|].
  exact (filterByMinProfit_calculateOpportunities sampleClock 0 sampleClock 7
           [binanceQuote; coinbaseQuote; krakenQuote] scenarioFees 0 1 Ht).
Defined.

Lemma filter_filter_comm {A : Type} (f g : A -> bool) (l : list A) :
  List.filter f (List.filter g l) = List.filter g (List.filter f l).
Proof.
  induction l as [|x l IH]; simpl; [done|].
  destruct (f x) eqn:Ef, (g x) eqn:Eg; simpl; rewrite ?Ef, ?Eg, IH; done.
Qed.

Lemma filter_ext_bool {A : Type} (f g : A -> bool) (l : list A) :
  (∀ x, f x = g x) → List.filter f l = List.filter g l.
Proof. intros Hfg. induction l as [|x l IH]; simpl; [done|]. by rewrite Hfg, IH. Qed.

(** X15: the two filters can be applied in either order, and filtering by
    two minimum profits one after the other is filtering by the higher
    one. *)
Theorem filters_compose (opportunities : list Opp.t) (pair : option string) (t1 t2 : Q) :
  filterByMinProfit (filterByPair opportunities pair) t1
  = filterByPair (filterByMinProfit opportunities t1) pair ∧
  filterByMinProfit (filterByMinProfit opportunities t1) t2
  = filterByMinProfit opportunities (Qmax t1 t2).
Proof.
  split.
  - unfold filterByPair, filterByMinProfit. destruct pair as [p|]; [|done].
    destruct (String.eqb p "" || String.eqb p "all"); [done|].
    apply filter_filter_comm.
  - unfold filterByMinProfit.
    induction opportunities as [|o l IH]; simpl; [done|].
    assert (Qle_bool (Qmax t1 t2) (Opp.netProfit o)
            = Qle_bool t1 (Opp.netProfit o) && Qle_bool t2 (Opp.netProfit o)) as ->.
    { apply eq_true_iff_eq.
      rewrite andb_true_iff, !Qle_bool_iff. split.
      - intros H. split.
        + eapply Qle_trans; [apply Q.le_max_l|exact H].
        + eapply Qle_trans; [apply Q.le_max_r|exact H].
      - intros [H1 H2]. by apply Q.max_lub. }
    destruct (Qle_bool t1 (Opp.netProfit o)); simpl; [|done].
    destruct (Qle_bool t2 (Opp.netProfit o)); by rewrite IH.
Qed.

(** ** getStats *)

Lemma Math_max_upper (x : Q) (xs : list Q) :
  x <= Math_max x xs ∧ Forall (λ y, y <= Math_max x xs) xs.
Proof.
  unfold Math_max. revert x. induction xs as [|y xs IH]; intros x; simpl.
  - split; [apply Qle_refl|constructor].
  - destruct (IH (Qmax x y)) as [H1 H2]. split.
    + eapply Qle_trans; [apply Q.le_max_l|exact H1].
    + constructor; [|done]. eapply Qle_trans; [apply Q.le_max_r|exact H1].
Qed.

Lemma Math_max_attained (x : Q) (xs : list Q) : Math_max x xs ∈ x :: xs.
Proof.
  unfold Math_max. revert x. induction xs as [|y xs IH]; intros x; simpl; [left|].
  specialize (IH (Qmax x y)).
  apply elem_of_cons in IH as [->|IH]; [|by do 2 right].
  unfold Qmax, GenericMinMax.gmax. destruct (x ?= y); [left|right; left|left].
Qed.

(** X16: of one opportunity or more, [getStats] counts them all, and its
    maximum profit is the net profit of one of them and no less than the
    net profit of any of them. *)
Theorem getStats_max (opp : Opp.t) (rest : list Opp.t) :
  count (getStats (opp :: rest)) = length (opp :: rest) ∧
  (∃ o, o ∈ opp :: rest ∧ maxProfit (getStats (opp :: rest)) = Opp.netProfit o) ∧
  ∀ o, o ∈ opp :: rest → Opp.netProfit o <= maxProfit (getStats (opp :: rest)).
Proof.
  cbn [getStats count maxProfit]. split; [done|]. split.
  - pose proof (Math_max_attained (Opp.netProfit opp) (map Opp.netProfit rest)) as H.
    change (map Opp.netProfit rest) with (Opp.netProfit <$> rest) in H.
    rewrite <- fmap_cons in H.
    apply list_elem_of_fmap in H as (o & Ho & Hin). by exists o.
  - destruct (Math_max_upper (Opp.netProfit opp) (map Opp.netProfit rest)) as [H1 H2].
    intros o [->|Ho]%elem_of_cons; [done|].
    rewrite Forall_forall in H2. apply H2.
    change (map Opp.netProfit rest) with (Opp.netProfit <$> rest).
    by apply list_elem_of_fmap_2.
Qed.



Lemma Math_max_head (x : Q) (xs : list Q) :
  Forall (λ y, y <= x) xs → Math_max x xs = x.
Proof.
  unfold Math_max. induction 1 as [|y xs Hy _ IH]; simpl; [done|].
  assert (Qmax x y = x) as ->; [|done].
  unfold Qmax, GenericMinMax.gmax.
  destruct (x ?= y) eqn:E; [done| |done].
  apply Qlt_alt in E. by apply Qlt_not_le in E.
Qed.

(** X18: the maximum profit [getStats] gives for the array a run returns
    is the net profit of the first opportunity of the array. *)
Theorem getStats_max_first clock quotes fees minProfit n o :
  (calculateOpportunities clock quotes fees minProfit n).1 !! 0%nat = Some o →
  maxProfit (getStats (calculateOpportunities clock quotes fees minProfit n).1)
  = Opp.netProfit o.
Proof.
  intros Ho.
  assert (StronglySorted (before byNetProfitDesc)
            (calculateOpportunities clock quotes fees minProfit n).1) as Hs.
  { unfold calculateOpportunities. cbn [fst].
    apply Array_sort_sorted; [apply byNetProfitDesc_total|apply byNetProfitDesc_trans]. }
  destruct (calculateOpportunities clock quotes fees minProfit n).1 as [|o' r]; [done|].
  injection Ho as ->. cbn [getStats maxProfit].
  apply Math_max_head. apply StronglySorted_inv in Hs as [_ Hs].
  change (map Opp.netProfit r) with (Opp.netProfit <$> r).
  apply Forall_fmap. eapply Forall_impl; [exact Hs|].
  intros o'. apply before_byNetProfitDesc.
Qed.

Lemma getStats_max_first_witness :
  (calculateOpportunities sampleClock [binanceQuote; coinbaseQuote; krakenQuote]
     scenarioFees (Some 0) 0).1 !! 0%nat = Some krakenOpp ∧
  maxProfit (getStats (calculateOpportunities sampleClock
                         [binanceQuote; coinbaseQuote; krakenQuote]
                         scenarioFees (Some 0) 0).1)
  = Opp.netProfit krakenOpp.
Proof.
  assert ((calculateOpportunities sampleClock [binanceQuote; coinbaseQuote; krakenQuote]
             scenarioFees (Some 0) 0).1 !! 0%nat = Some krakenOpp) as H0.
  { vm_compute. reflexivity. }
  split; [exact H0|].
  exact (getStats_max_first _ _ _ _ _ _ H0).
Defined.

(** ** getProfitClass *)

(** The class of a profit is "profit-positive" from 1 on,
    "profit-neutral" from 0 on and below 1, and "profit-negative" below
    0; the three cases leave no profit out. *)
Theorem getProfitClass_cases (profit : Q) :
  (getProfitClass profit = "profit-positive" ↔ 1 <= profit) ∧
  (getProfitClass profit = "profit-neutral" ↔ 0 <= profit ∧ profit < 1) ∧
  (getProfitClass profit = "profit-negative" ↔ profit < 0).
Proof.
  unfold getProfitClass.
  destruct (Qle_bool 1 profit) eqn:E1; [|destruct (Qle_bool 0 profit) eqn:E0].
  - apply Qle_bool_iff in E1.
    repeat split; intros; destruct_and?; first [done | discriminate | lra].
  - apply Qle_bool_iff in E0.
    assert (profit < 1) as H1.
    { apply Qnot_le_lt. intros H. apply Qle_bool_iff in H. congruence. }
    repeat split; intros; destruct_and?; first [done | discriminate | lra].
  - assert (profit < 0) as H0.
    { apply Qnot_le_lt. intros H. apply Qle_bool_iff in H. congruence. }
    repeat split; intros; destruct_and?; first [done | discriminate | lra].
Qed.

(** X19: for a threshold of 0 or more no opportunity returned is shown
    with the class "profit-negative" for its net profit, and for a
    threshold of 1 or more each is shown "profit-positive". *)
Theorem getProfitClass_calculateOpportunities clock quotes fees t n o :
  o ∈ (calculateOpportunities clock quotes fees (Some t) n).1 →
  (0 <= t → getProfitClass (Opp.netProfit o) ≠ "profit-negative") ∧
  (1 <= t → getProfitClass (Opp.netProfit o) = "profit-positive").
Proof.
  intros Ho.
  apply elem_of_calculateOpportunities in Ho
    as (pair & pairQuotes & i & j & b & s & _ & _ & _ & _ & _ & Hmin & Hc).
  change (Opp.netProfit o) with (Opp.netProfit (Opp.content o)).
  rewrite Hc. cbn [default] in Hmin. unfold getProfitClass. split.
  - intros Ht.
    assert (Qle_bool 0 (Opp.netProfit (candidate fees pair b s)) = true) as E.
    { apply Qle_bool_iff. by eapply Qle_trans. }
    rewrite E. by destruct (Qle_bool 1 _).
  - intros Ht.
    assert (Qle_bool 1 (Opp.netProfit (candidate fees pair b s)) = true) as E.
    { apply Qle_bool_iff. by eapply Qle_trans. }
    by rewrite E.
Qed.

Lemma getProfitClass_calculateOpportunities_witness :
  scenarioOpp ∈ (calculateOpportunities sampleClock [binanceQuote; coinbaseQuote]
                   scenarioFees (Some 0) 0).1 ∧
  (0 <= 0 → getProfitClass (Opp.netProfit scenarioOpp) ≠ "profit-negative") ∧
  (1 <= 0 → getProfitClass (Opp.netProfit scenarioOpp) = "profit-positive").
Proof.
  assert (scenarioOpp ∈ (calculateOpportunities sampleClock
            [binanceQuote; coinbaseQuote] scenarioFees (Some 0) 0).1) as Hin.
  { apply (list_elem_of_lookup_2 _ 0%nat). vm_compute. reflexivity. }
  split; [exact Hin|].
  exact (getProfitClass_calculateOpportunities _ _ _ _ _ _ Hin).
Defined.

(** ** What the fields of a returned opportunity say *)



(** ** calculateProfitAmount *)





(** ** isValid *)

(** X22: an opportunity returned for a positive threshold stays valid
    until it is too old: [isValid] answers true for it exactly when the
    time read, less the time it was detected at, is below the maximum
    age. *)
Theorem isValid_calculateOpportunities clock quotes fees t n o clock' maxAge m :
  0 < t →
  o ∈ (calculateOpportunities clock quotes fees (Some t) n).1 →
  (isValid clock' o maxAge m).1 = true ↔
  inject_Z (clock' m - getTime (Opp.timestamp o)) < default 60000 maxAge.
Proof.
  intros Ht Ho.
  apply elem_of_calculateOpportunities in Ho
    as (pair & pairQuotes & i & j & b & s & _ & _ & _ & _ & _ & Hmin & Hc).
  assert (0 < Opp.netProfit o) as Hnet.
  { change (Opp.netProfit o) with (Opp.netProfit (Opp.content o)).
    rewrite Hc. cbn [default] in Hmin. by eapply Qlt_le_trans. }
  unfold isValid. cbn [fst].
  rewrite andb_true_iff, !Qlt_bool_iff. tauto.
Qed.

Lemma isValid_calculateOpportunities_witness :
  0 < 0.25 ∧
  scenarioOpp ∈ (calculateOpportunities sampleClock [binanceQuote; coinbaseQuote]
                   scenarioFees (Some 0.25) 0).1 ∧
  ((isValid sampleClock scenarioOpp None 9).1 = true ↔
   inject_Z (sampleClock 9%nat - getTime (Opp.timestamp scenarioOpp)) < default 60000 None).
Proof.
  assert (0 < 0.25) as Ht by (vm_compute; reflexivity).
  assert (scenarioOpp ∈ (calculateOpportunities sampleClock
            [binanceQuote; coinbaseQuote] scenarioFees (Some 0.25) 0).1) as Hin.
  { apply (list_elem_of_lookup_2 _ 0%nat). vm_compute. reflexivity. }
  split; [exact Ht|]. split; [exact Hin|].
  exact (isValid_calculateOpportunities sampleClock _ scenarioFees 0.25 0
           scenarioOpp sampleClock None 9 Ht Hin).
Defined.

(** ** The table of the application (js/app.js) *)

Lemma filterByPair_keeps (opportunities : list Opp.t) (pair : option string) :
  keeps (pairSelected pair) opportunities (filterByPair opportunities pair).
Proof.
  unfold filterByPair. destruct pair as [p|]; [|by apply keeps_all].
  destruct (String.eqb_spec p "") as [->|Hne1]; [apply keeps_all; simpl; auto|].
  destruct (String.eqb_spec p "all") as [->|Hne2]; [apply keeps_all; simpl; auto|].
  cbn [orb]. apply keeps_filter. intros opp. rewrite String.eqb_eq.
  simpl. split; [auto|]. intros [?|[?|?]]; done.
Qed.

Lemma filterByMinProfit_keeps (opportunities : list Opp.t) (minProfit : Q) :
  keeps (λ opp, minProfit <= Opp.netProfit opp) opportunities
        (filterByMinProfit opportunities minProfit).
Proof. apply keeps_filter. intros opp. apply Qle_bool_iff. Qed.

(** X23: the rows of the table are the opportunities last computed that
    pass both filters, each as often as it was computed, none changed; a
    minimum profit field that holds no number, or 0, filters at 0. *)
Theorem applyFilters_rows localeCompare opportunities pairFilter minProfitField sortBy :
  applyFilters localeCompare opportunities pairFilter minProfitField sortBy
  ⊆+ opportunities ∧
  ∀ o, o ∈ applyFilters localeCompare opportunities pairFilter minProfitField sortBy ↔
       o ∈ opportunities ∧
       pairSelected (Some pairFilter) o ∧
       or_default minProfitField 0 <= Opp.netProfit o.
Proof.
  unfold applyFilters.
  pose proof (filterByPair_keeps opportunities (Some pairFilter)) as Hp.
  pose proof (filterByMinProfit_keeps (filterByPair opportunities (Some pairFilter))
                (or_default minProfitField 0)) as Hm.
  split.
  - rewrite sort_perm. apply sublist_submseteq.
    etrans; [by eapply keeps_sublist|by eapply keeps_sublist].
  - intros o. rewrite sort_perm.
    rewrite (keeps_elem_of _ _ _ o Hm), (keeps_elem_of _ _ _ o Hp). tauto.
Qed.

Lemma StronglySorted_filter {A : Type} (R : relation A) (f : A -> bool) (l : list A) :
  StronglySorted R l → StronglySorted R (List.filter f l).
Proof.
  induction 1 as [|x l Hl IH Hx]; simpl; [constructor|].
  destruct (f x); [|done]. constructor; [done|].
  apply Forall_forall. intros y Hy%list_elem_of_In%filter_In.
  destruct Hy as [Hy%list_elem_of_In _].
  rewrite Forall_forall in Hx. by apply Hx.
Qed.

Lemma filterByPair_sorted (R : relation Opp.t) opportunities pair :
  StronglySorted R opportunities → StronglySorted R (filterByPair opportunities pair).
Proof.
  intros Hs. unfold filterByPair. destruct pair as [p|]; [|done].
  destruct (String.eqb p "" || String.eqb p "all"); [done|].
  by apply StronglySorted_filter.
Qed.

(** X24: with the sort key "profit", the rows of the table are the
    opportunities of the last run that pass the filters in the order the
    run returned them in: sorting them again moves none. *)
Theorem applyFilters_profit localeCompare clock quotes fees minProfit n
    pairFilter minProfitField :
  applyFilters localeCompare (calculateOpportunities clock quotes fees minProfit n).1
    pairFilter minProfitField "profit"
  = filterByMinProfit
      (filterByPair (calculateOpportunities clock quotes fees minProfit n).1
         (Some pairFilter))
      (or_default minProfitField 0).
Proof.
  unfold applyFilters.
  change (sort localeCompare ?l "profit") with (Array_sort byNetProfitDesc l).
  apply Array_sort_sorted_id.
  apply StronglySorted_filter, filterByPair_sorted.
  unfold calculateOpportunities. cbn [fst].
  apply Array_sort_sorted; [apply byNetProfitDesc_total|apply byNetProfitDesc_trans].
Qed.

Lemma list_fmap_bind_comm {X Y Z : Type} (f : Y -> Z) (g : X -> list Y) (l : list X) :
  f <$> (l ≫= g) = l ≫= (λ x, f <$> g x).
Proof. induction l as [|x l IH]; csimpl; [done|]. by rewrite fmap_app, IH. Qed.

Lemma legs_offers fees t pair b s y :
  y ∈ legs <$> offers fees t pair b s → y = (pair, Quote.exchange b, Quote.exchange s).
Proof.
  intros (c & -> & Hc)%list_elem_of_fmap.
  by apply elem_of_offers in Hc as (_ & _ & ->).
Qed.

Lemma NoDup_legs_offers fees t pair b s : NoDup (legs <$> offers fees t pair b s).
Proof.
  unfold offers. destruct (Qle_bool _ _); [constructor|].
  destruct (Qle_bool _ _); [apply NoDup_singleton|constructor].
Qed.

Lemma NoDup_legs_pairOffers fees t pair pairQuotes :
  NoDup (Quote.exchange <$> pairQuotes) →
  NoDup (legs <$> pairOffers fees t pair pairQuotes).
Proof.
  intros Hnd. unfold pairOffers.
  destruct (length pairQuotes <? 2)%nat; [constructor|].
  assert (∀ i j y,
            y ∈ legs <$> (if (i =? j)%nat then []
                          else match pairQuotes !! i, pairQuotes !! j with
                               | Some b, Some s => offers fees t pair b s
                               | _, _ => []
                               end) →
            ∃ b s, pairQuotes !! i = Some b ∧ pairQuotes !! j = Some s ∧
                   y = (pair, Quote.exchange b, Quote.exchange s)) as Hin.
  { intros i j y. destruct (i =? j)%nat; [by intros ?%elem_of_nil|].
    destruct (pairQuotes !! i) as [b|]; [|by intros ?%elem_of_nil].
    destruct (pairQuotes !! j) as [s|]; [|by intros ?%elem_of_nil].
    intros ->%legs_offers. by exists b, s. }
  assert (∀ i1 i2 q1 q2, pairQuotes !! i1 = Some q1 → pairQuotes !! i2 = Some q2 →
            Quote.exchange q1 = Quote.exchange q2 → i1 = i2) as Hinj.
  { intros i1 i2 q1 q2 H1 H2 Heq.
    apply (NoDup_lookup (Quote.exchange <$> pairQuotes) i1 i2 (Quote.exchange q1));
      [done|by rewrite list_lookup_fmap, H1|by rewrite list_lookup_fmap, H2, Heq]. }
  rewrite list_fmap_bind_comm. apply NoDup_bind; [| |apply NoDup_seq].
  - intros i1 i2 y _ _ Hy1 Hy2.
    rewrite list_fmap_bind_comm in Hy1, Hy2.
    apply list_elem_of_bind in Hy1 as (j1 & Hy1 & _).
    apply list_elem_of_bind in Hy2 as (j2 & Hy2 & _).
    apply Hin in Hy1 as (b1 & s1 & Hb1 & _ & ->).
    apply Hin in Hy2 as (b2 & s2 & Hb2 & _ & [= Heq _]).
    by eapply Hinj.
  - intros i _. rewrite list_fmap_bind_comm. apply NoDup_bind; [| |apply NoDup_seq].
    + intros j1 j2 y _ _ Hy1 Hy2.
      apply Hin in Hy1 as (b1 & s1 & _ & Hs1 & ->).
      apply Hin in Hy2 as (b2 & s2 & _ & Hs2 & [= _ Heq]).
      by eapply Hinj.
    + intros j _. destruct (i =? j)%nat; [constructor|].
      destruct (pairQuotes !! i); [|constructor].
      destruct (pairQuotes !! j); [|constructor].
      apply NoDup_legs_offers.
Qed.

Lemma legs_pairOffers fees t pair pairQuotes y :
  y ∈ legs <$> pairOffers fees t pair pairQuotes → y.1.1 = pair.
Proof.
  intros (c & -> & Hc)%list_elem_of_fmap.
  apply elem_of_pairOffers in Hc as (i & j & b & s & _ & _ & _ & Hc).
  by apply elem_of_offers in Hc as (_ & _ & ->).
Qed.

Lemma NoDup_legs_allOffers fees t quotes :
  NoDup (pairExchange <$> quotes) → NoDup (legs <$> allOffers fees t quotes).
Proof.
  intros Hnd. unfold allOffers. rewrite list_fmap_bind_comm.
  apply NoDup_bind.
  - assert (∀ k qs, (k, qs) ∈ groupByPair quotes → qs = quotesOfPair k quotes) as Hgroup.
    { intros k qs. rewrite groupByPair_fmap.
      intros (k' & E & _)%list_elem_of_fmap. by injection E as -> ->. }
    intros [k1 qs1] [k2 qs2] y H1 H2 Hy1%legs_pairOffers Hy2%legs_pairOffers.
    cbn [fst] in Hy1, Hy2.
    rewrite (Hgroup _ _ H1), (Hgroup _ _ H2). congruence.
  - intros [k qs] Hin. cbn [fst snd].
    apply NoDup_legs_pairOffers.
    apply groupByPair_group in Hin as [Hsub Hpair].
    assert (NoDup (pairExchange <$> qs)) as Hqs
      by (eapply sublist_NoDup; [exact Hnd|by apply fmap_sublist]).
    rewrite (list_fmap_ext pairExchange (λ q, (k, Quote.exchange q)) qs) in Hqs.
    + rewrite (list_fmap_compose Quote.exchange (λ e, (k, e))) in Hqs.
      by apply NoDup_fmap_1 in Hqs.
    + intros i q Hq. unfold pairExchange. f_equal.
      rewrite Forall_forall in Hpair. by eapply Hpair, list_elem_of_lookup_2.
  - apply (NoDup_fmap_1 fst).
    assert ((groupByPair quotes).*1 = firstPairs quotes) as ->.
    { rewrite groupByPair_fmap, <- list_fmap_compose. apply list_fmap_id. }
    apply NoDup_firstPairs.
Qed.

Lemma find_NoDup {A B : Type} (key : A -> B) (test : A -> bool) (l : list A) (x : A) :
  NoDup (key <$> l) → x ∈ l →
  (∀ y, test y = true ↔ key y = key x) →
  List.find test l = Some x.
Proof.
  intros Hnd Hx Htest. induction l as [|a l IH]; [by apply elem_of_nil in Hx|].
  csimpl in Hnd. apply NoDup_cons in Hnd as [Ha Hnd]. simpl.
  destruct (test a) eqn:E.
  - apply Htest in E. apply elem_of_cons in Hx as [->|Hx]; [done|].
    exfalso. apply Ha. rewrite E. by apply list_elem_of_fmap_2.
  - apply elem_of_cons in Hx as [->|Hx]; [|by apply IH].
    assert (test a = true) by (by apply Htest). congruence.
Qed.

(** X25: when no two quotes of the input have both the same pair and the
    same exchange, the "View" button of a row of the table shows that
    row: [viewDetails], given the pair and the exchanges of a row, finds
    this very row and computes its breakdown for an investment of 1000. *)
Theorem viewDetails_row localeCompare clock quotes fees minProfit n
    pairFilter minProfitField sortBy o :
  NoDup (pairExchange <$> quotes) →
  o ∈ applyFilters localeCompare (calculateOpportunities clock quotes fees minProfit n).1
        pairFilter minProfitField sortBy →
  viewDetails
    (applyFilters localeCompare (calculateOpportunities clock quotes fees minProfit n).1
       pairFilter minProfitField sortBy)
    (Opp.pair o) (Opp.buyExchange o) (Opp.sellExchange o)
  = Some (o, calculateProfitAmount o 1000).
Proof.
  intros Hnd Ho. unfold viewDetails.
  rewrite (find_NoDup legs _ _ o); [done| |done|].
  - assert (NoDup (legs <$> (calculateOpportunities clock quotes fees minProfit n).1))
      as Hrun.
    { change legs with (legs ∘ Opp.content). rewrite list_fmap_compose.
      rewrite calculateOpportunities_content, Array_sort_Permutation.
      by apply NoDup_legs_allOffers. }
    assert (legs <$> applyFilters localeCompare
                       (calculateOpportunities clock quotes fees minProfit n).1
                       pairFilter minProfitField sortBy
            ⊆+ legs <$> (calculateOpportunities clock quotes fees minProfit n).1) as Hsub.
    { apply fmap_submseteq. unfold applyFilters. rewrite sort_perm.
      apply sublist_submseteq.
      etrans; [eapply keeps_sublist, filterByMinProfit_keeps
              |eapply keeps_sublist, filterByPair_keeps]. }
    apply submseteq_sublist_r in Hsub as (k & Hperm & Hsub).
    rewrite Hperm. by eapply sublist_NoDup.
  - intros y. rewrite !andb_true_iff, !String.eqb_eq. unfold legs.
    split; [intros [[-> ->] ->]; done|intros [= -> -> ->]; done].
Qed.

Lemma viewDetails_row_witness :
  NoDup (pairExchange <$> [binanceQuote; coinbaseQuote]) ∧
  scenarioOpp ∈ applyFilters (λ _ _, 0)
                  (calculateOpportunities sampleClock [binanceQuote; coinbaseQuote]
                     scenarioFees (Some 0) 0).1 "all" None "profit" ∧
  viewDetails
    (applyFilters (λ _ _, 0)
       (calculateOpportunities sampleClock [binanceQuote; coinbaseQuote]
          scenarioFees (Some 0) 0).1 "all" None "profit")
    (Opp.pair scenarioOpp) (Opp.buyExchange scenarioOpp) (Opp.sellExchange scenarioOpp)
  = Some (scenarioOpp, calculateProfitAmount scenarioOpp 1000).
Proof.
  assert (NoDup (pairExchange <$> [binanceQuote; coinbaseQuote])) as Hnd.
  { refine (bool_decide_unpack _ _). vm_compute. reflexivity. }
  assert (scenarioOpp ∈ applyFilters (λ _ _, 0)
            (calculateOpportunities sampleClock [binanceQuote; coinbaseQuote]
               scenarioFees (Some 0) 0).1 "all" None "profit") as Hin.
  { apply (list_elem_of_lookup_2 _ 0%nat). vm_compute. reflexivity. }
  split; [exact Hnd|]. split; [exact Hin|].
  exact (viewDetails_row (λ _ _, 0) sampleClock [binanceQuote; coinbaseQuote]
           scenarioFees (Some 0) 0 "all" None "profit" scenarioOpp Hnd Hin).
Defined.

(** ** The quotes the application fetches (js/api.js) *)

(** X26: [formatPair] turns the first slash of a pair into an underscore
    and leaves the rest as it is, later slashes too; a pair without slash
    is returned as it is. *)
Theorem formatPair_first_slash (base rest : string) :
  slashFree base = true →
  formatPair (base +:+ "/" +:+ rest) = base +:+ "_" +:+ rest ∧
  formatPair base = base.
Proof.
  induction base as [|c base IH]; simpl; [done|].
  intros [Hc Hb]%andb_true_iff. apply negb_true_iff in Hc. rewrite Hc.
  destruct (IH Hb) as [-> ->]. done.
Qed.

Lemma formatPair_first_slash_witness :
  slashFree "BTC" = true ∧
  formatPair ("BTC" +:+ "/" +:+ "USDT/X") = "BTC" +:+ "_" +:+ "USDT/X" ∧
  formatPair "BTC" = "BTC".
Proof.
  assert (slashFree "BTC" = true) as H by reflexivity.
  split; [exact H|].
  exact (formatPair_first_slash "BTC" "USDT/X" H).
Defined.

Lemma quoteOf_Some exchangeId pair reply q :
  quoteOf exchangeId pair reply = Some q →
  Quote.exchange q = exchangeId ∧ Quote.pair q = pair ∧
  ¬ Quote.ask q == 0 ∧ ¬ Quote.bid q == 0.
Proof.
  unfold quoteOf. destruct (orderbookOf (answer reply)) as [ob|]; [|done].
  destruct (Orderbook.ask ob) as [a|]; [|done].
  destruct (Orderbook.bid ob) as [b|]; [|done].
  destruct (Qeq_bool a 0) eqn:Ea; [done|].
  destruct (Qeq_bool b 0) eqn:Eb; [done|].
  intros [= <-]. cbn. repeat split.
  - intros H. apply Qeq_bool_iff in H. congruence.
  - intros H. apply Qeq_bool_iff in H. congruence.
Qed.

Lemma omap_imap_sublist {X Y Z : Type} (f : nat -> X -> option Y) (g : Y -> Z)
    (h : X -> Z) (l : list X) :
  (∀ j x y, f j x = Some y → g y = h x) →
  g <$> omap id (imap f l) `sublist_of` h <$> l.
Proof.
  revert f. induction l as [|x l IH]; intros f Hf; csimpl; [done|].
  destruct (f 0%nat x) as [y|] eqn:E; csimpl.
  - rewrite (Hf _ _ _ E). constructor. apply IH. intros j. apply Hf.
  - constructor. apply IH. intros j. apply Hf.
Qed.

Lemma mjoin_imap_sublist {X Y : Type} (F : nat -> X -> list Y) (H : X -> list Y)
    (l : list X) :
  (∀ i x, F i x `sublist_of` H x) → mjoin (imap F l) `sublist_of` (l ≫= H).
Proof.
  revert F. induction l as [|x l IH]; intros F HF; csimpl; [done|].
  apply sublist_app; [apply HF|]. apply IH. intros i. apply HF.
Qed.

Lemma getQuotesForPair_sublist replies pair exchanges :
  pairExchange <$> getQuotesForPair replies pair exchanges
  `sublist_of` (λ e, (pair, e)) <$> exchanges.
Proof.
  apply omap_imap_sublist. intros j e q (He & Hp & _)%quoteOf_Some.
  unfold pairExchange. by rewrite He, Hp.
Qed.

Lemma fmap_mjoin_imap {X Y Z : Type} (g : Y -> Z) (F : nat -> X -> list Y) (l : list X) :
  g <$> mjoin (imap F l) = mjoin (imap (λ i x, g <$> F i x) l).
Proof.
  revert F. induction l as [|x l IH]; intros F; csimpl; [done|].
  by rewrite fmap_app, IH.
Qed.

Lemma getAllQuotes_sublist replies pairs exchanges :
  pairExchange <$> getAllQuotes replies pairs exchanges
  `sublist_of` (pairs ≫= λ p, (λ e, (p, e)) <$> exchanges).
Proof.
  unfold getAllQuotes. rewrite fmap_mjoin_imap.
  apply mjoin_imap_sublist. intros i p. apply getQuotesForPair_sublist.
Qed.

(** X27: whatever the provider answers, the quotes [getAllQuotes]
    assembles are for the pairs and the exchanges asked for, in the order
    asked, at most one for a pair and an exchange; when no pair and no
    exchange is listed twice, no two quotes have both the same pair and
    the same exchange. *)
Theorem getAllQuotes_distinct replies pairs exchanges :
  NoDup pairs → NoDup exchanges →
  pairExchange <$> getAllQuotes replies pairs exchanges
  `sublist_of` (pairs ≫= λ p, (λ e, (p, e)) <$> exchanges) ∧
  NoDup (pairExchange <$> getAllQuotes replies pairs exchanges).
Proof.
  intros Hp He. split; [apply getAllQuotes_sublist|].
  eapply sublist_NoDup; [|apply getAllQuotes_sublist].
  apply NoDup_bind; [| |done].
  - intros p1 p2 [p e] _ _ (e1 & [= -> _] & _)%list_elem_of_fmap
                          (e2 & [= -> _] & _)%list_elem_of_fmap. done.
  - intros p _. apply NoDup_fmap_2; [|done]. by intros e1 e2 [= ->].
Qed.

(** X28: a quote is assembled only from an answer with a non-zero best
    ask and a non-zero best bid: every quote of [getAllQuotes] has an ask
    and a bid other than 0, so the detector divides by no zero on them. *)
Theorem getAllQuotes_prices replies pairs exchanges q :
  q ∈ getAllQuotes replies pairs exchanges →
  ¬ Quote.ask q == 0 ∧ ¬ Quote.bid q == 0 ∧
  Quote.pair q ∈ pairs ∧ Quote.exchange q ∈ exchanges.
Proof.
  unfold getAllQuotes, getQuotesForPair.
  intros (qs & Hq & Hqs)%list_elem_of_join.
  apply elem_of_lookup_imap in Hqs as (i & p & -> & Hp).
  apply list_elem_of_omap in Hq as (oq & Hoq & Hq). simpl in Hq. subst oq.
  apply elem_of_lookup_imap in Hoq as (j & e & Hoq & He).
  symmetry in Hoq. apply quoteOf_Some in Hoq as (-> & -> & Ha & Hb).
  split; [done|]. split; [done|].
  split; by eapply list_elem_of_lookup_2.
Qed.

Example getAllQuotes_sample :
  getAllQuotes sampleReplies ["BTC/USDT"] ["BINANCE"; "COINBASE"] = [binanceQuote].
Proof. reflexivity. Qed.

Lemma getAllQuotes_distinct_witness :
  NoDup ["BTC/USDT"; "ETH/USDT"] ∧ NoDup ["BINANCE"; "COINBASE"] ∧
  pairExchange <$> getAllQuotes sampleReplies ["BTC/USDT"; "ETH/USDT"] ["BINANCE"; "COINBASE"]
  `sublist_of` (["BTC/USDT"; "ETH/USDT"] ≫= λ p, (λ e, (p, e)) <$> ["BINANCE"; "COINBASE"]) ∧
  NoDup (pairExchange
           <$> getAllQuotes sampleReplies ["BTC/USDT"; "ETH/USDT"] ["BINANCE"; "COINBASE"]).
Proof.
  assert (NoDup ["BTC/USDT"; "ETH/USDT"]) as Hp.
  { refine (bool_decide_unpack _ _). vm_compute. reflexivity. }
  assert (NoDup ["BINANCE"; "COINBASE"]) as He.
  { refine (bool_decide_unpack _ _). vm_compute. reflexivity. }
  split; [exact Hp|]. split; [exact He|].
  exact (getAllQuotes_distinct sampleReplies _ _ Hp He).
Defined.

Lemma getAllQuotes_prices_witness :
  binanceQuote ∈ getAllQuotes sampleReplies ["BTC/USDT"] ["BINANCE"; "COINBASE"] ∧
  ¬ Quote.ask binanceQuote == 0 ∧ ¬ Quote.bid binanceQuote == 0 ∧
  Quote.pair binanceQuote ∈ ["BTC/USDT"] ∧
  Quote.exchange binanceQuote ∈ ["BINANCE"; "COINBASE"].
Proof.
  assert (binanceQuote ∈ getAllQuotes sampleReplies ["BTC/USDT"] ["BINANCE"; "COINBASE"])
    as Hin.
  { apply (list_elem_of_lookup_2 _ 0%nat). reflexivity. }
  split; [exact Hin|].
  exact (getAllQuotes_prices sampleReplies _ _ _ Hin).
Defined.

(** ** The settings (js/config.js) *)


(** A setting that the stored object lacks reads as its default, and
    so does every setting when nothing usable is stored or after a
    [reset]; a setting the stored object has reads as stored. *)
Theorem Config_get_default key config st :
  Config.get key (Config.Stored config)
  = match config !! key with
    | Some v => Some v
    | None => Config.defaults !! key
    end ∧
  Config.get key Config.Absent = Config.defaults !! key ∧
  Config.get key Config.Unreadable = Config.defaults !! key ∧
  Config.get key (Config.reset st).2 = Config.defaults !! key.
Proof.
  unfold Config.get. cbn [Config.load Config.reset snd].
  split; [|done]. rewrite lookup_union.
  destruct (config !! key), (Config.defaults !! key); done.
Qed.



Example Config_getFee_bitstamp :
  Config.getFee "BITSTAMP" Config.Absent = Some 0.25 ∧
  Config.getFee "BITSTAMP" (Config.Stored savedSettings) = Some 0.1.
Proof. split; vm_compute; reflexivity. Qed.

(** ** The fees of a returned opportunity *)

(** X9: the fee of a leg of a returned opportunity is the entry of its
    exchange in the fee schedule when there is one and it is not 0, and
    0.1 when there is none or it is 0; so no leg has a fee of 0. *)
Theorem calculateOpportunities_fee_lookup clock quotes fees minProfit n o :
  o ∈ (calculateOpportunities clock quotes fees minProfit n).1 →
  (∀ x, fees !! Opp.buyExchange o = Some x → ¬ x == 0 → Opp.buyFee o = x) ∧
  (fees !! Opp.buyExchange o = None ∨
   (∃ x, fees !! Opp.buyExchange o = Some x ∧ x == 0) → Opp.buyFee o = 0.1) ∧
  (∀ x, fees !! Opp.sellExchange o = Some x → ¬ x == 0 → Opp.sellFee o = x) ∧
  (fees !! Opp.sellExchange o = None ∨
   (∃ x, fees !! Opp.sellExchange o = Some x ∧ x == 0) → Opp.sellFee o = 0.1) ∧
  ¬ Opp.buyFee o == 0 ∧ ¬ Opp.sellFee o == 0.
Proof.
  intros Ho.
  apply elem_of_calculateOpportunities in Ho
    as (pair & pairQuotes & i & j & b & s & _ & _ & _ & _ & _ & _ & Hc).
  change (Opp.buyFee o) with (Opp.buyFee (Opp.content o)).
  change (Opp.sellFee o) with (Opp.sellFee (Opp.content o)).
  change (Opp.buyExchange o) with (Opp.buyExchange (Opp.content o)).
  change (Opp.sellExchange o) with (Opp.sellExchange (Opp.content o)).
  rewrite Hc. cbn [candidate Opp.buyFee Opp.sellFee Opp.buyExchange Opp.sellExchange].
  assert (∀ v, ¬ or_default v 0.1 == 0) as Hnz.
  { intros [x|]; simpl; [|discriminate].
    destruct (Qeq_bool x 0) eqn:E; [discriminate|].
    intros H. apply Qeq_bool_iff in H. congruence. }
  repeat split; try apply Hnz.
  - intros x -> Hx. by apply or_default_nonzero.
  - intros [->|(x & -> & Hx)]; [done|by apply or_default_zero].
  - intros x -> Hx. by apply or_default_nonzero.
  - intros [->|(x & -> & Hx)]; [done|by apply or_default_zero].
Qed.

Lemma calculateOpportunities_fee_lookup_witness :
  scenarioOpp ∈ (calculateOpportunities sampleClock [binanceQuote; coinbaseQuote]
                   scenarioFees (Some 0) 0).1 ∧
  (∀ x, scenarioFees !! Opp.buyExchange scenarioOpp = Some x → ¬ x == 0 →
        Opp.buyFee scenarioOpp = x) ∧
  (scenarioFees !! Opp.buyExchange scenarioOpp = None ∨
   (∃ x, scenarioFees !! Opp.buyExchange scenarioOpp = Some x ∧ x == 0) →
   Opp.buyFee scenarioOpp = 0.1) ∧
  (∀ x, scenarioFees !! Opp.sellExchange scenarioOpp = Some x → ¬ x == 0 →
        Opp.sellFee scenarioOpp = x) ∧
  (scenarioFees !! Opp.sellExchange scenarioOpp = None ∨
   (∃ x, scenarioFees !! Opp.sellExchange scenarioOpp = Some x ∧ x == 0) →
   Opp.sellFee scenarioOpp = 0.1) ∧
  ¬ Opp.buyFee scenarioOpp == 0 ∧ ¬ Opp.sellFee scenarioOpp == 0.
Proof.
  assert (scenarioOpp ∈ (calculateOpportunities sampleClock
            [binanceQuote; coinbaseQuote] scenarioFees (Some 0) 0).1) as Hin.
  { apply (list_elem_of_lookup_2 _ 0%nat). vm_compute. reflexivity. }
  split; [exact Hin|].
  exact (calculateOpportunities_fee_lookup _ _ _ _ _ _ Hin).
Defined.
